(** * shastity: option/configuration framework and file system layer

    A shallow embedding of [shastity/config.py] and
    [shastity/filesystem.py].  Python objects live in explicit stores,
    methods are state-passing functions that either return a value or
    raise, and the module level names each file can see are written out
    so that a reference to an unbound global behaves as it does in
    Python (it raises NameError when it is evaluated). *)

From Stdlib Require Import ZArith String Ascii List Bool Lia HexString
  DecimalString.
From stdpp Require Import base option list gmap strings fin_maps.

Local Open Scope string_scope.
Local Open Scope list_scope.

(** ** Python values, exceptions, and the state-and-exception monad *)
Module python.

Inductive pyval : Type :=
| PyNone
| PyBool (b : bool)
| PyInt (z : Z)
| PyLong (z : Z)
| PyStr (s : string)
| PyUnicode (s : string).

(** The exceptions the two modules can raise.  Messages are kept only
    where a claim talks about them. *)
Inductive exn : Type :=
| RequiredOptionMissingError (option_name : string) (comment : pyval)
| BadOptionValueType
| ConflictingMergeError (arg : string)
| DuplicateOptionError (arg : string)
| StaleTemporaryDirectory (path : string)
| OSError (errno : string)
| NameError (name : string)
| AttributeError (attr : string)
| TypeError (msg : string)
| ValueError
| UnicodeDecodeError
| KeyError (key : string)
| AssertionError
| NotImplementedError
| SystemError (msg : string).

Inductive result (A : Type) : Type :=
| Ok (a : A)
| Raise (e : exn).
Arguments Ok {A} a.
Arguments Raise {A} e.

(** A computation over a store [S]: a raised exception keeps the
    store as it was at the raise, as in Python. *)
Definition Py (S A : Type) : Type := S -> S * result A.

Definition ret {S A} (a : A) : Py S A := fun s => (s, Ok a).
Definition raise {S A} (e : exn) : Py S A := fun s => (s, Raise e).
Definition bind {S A B} (c : Py S A) (k : A -> Py S B) : Py S B :=
  fun s => match c s with
           | (s', Ok a) => k a s'
           | (s', Raise e) => (s', Raise e)
           end.
Definition lift {S A} (r : result A) : Py S A := fun s => (s, r).
Definition read {S} : Py S S := fun s => (s, Ok s).
Definition write {S} (s : S) : Py S unit := fun _ => (s, Ok tt).

(** [for x in l: body] *)
Fixpoint for_each {S A} (l : list A) (body : A -> Py S unit) : Py S unit :=
  match l with
  | [] => ret tt
  | x :: l' => bind (body x) (fun _ => for_each l' body)
  end.

(** [assert b] *)
Definition assert_ {S} (b : bool) : Py S unit :=
  if b then ret tt else raise AssertionError.

(** Names every module sees without importing them. *)
Definition builtins : list string :=
  ["Exception"; "NotImplementedError"; "OSError"; "AttributeError";
   "isinstance"; "unicode"; "str"; "int"; "bool"; "dict"; "len";
   "object"; "open"; "None"; "True"; "False"].

(** Evaluating the global name [x] in a module whose top level binds
    [globals]. *)
Definition load_global (globals : list string) (x : string) : result unit :=
  if bool_decide (x ∈ globals ++ builtins) then Ok tt
  else Raise (NameError x).

(** [raise C(...)] where the class is looked up under the name [x]. *)
Definition raise_global {S A} (globals : list string) (x : string) (e : exn)
  : Py S A :=
  match load_global globals x with
  | Ok _ => raise e
  | Raise ne => raise ne
  end.

(** Reading the attribute [x] of a module whose top level binds
    [globals], as in [module.x]: the built-in names are not attributes
    of the module. *)
Definition module_getattr (globals : list string) (x : string) : result unit :=
  if bool_decide (x ∈ globals) then Ok tt else Raise (AttributeError x).

(** Whether every byte of a byte string is an ASCII character. *)
Definition is_ascii (s : string) : bool :=
  forallb (fun c => (nat_of_ascii c <? 128)%nat) (list_ascii_of_string s).

End python.

Export python.

Declare Scope py_scope.
Delimit Scope py_scope with py.
Notation "'do' x <- c ; k" := (bind c (fun x => k))
  (at level 10, x name, c at level 100, k at level 200) : py_scope.
Notation "c ;; k" := (bind c (fun _ => k))
  (at level 100, k at level 200, right associativity) : py_scope.
Local Open Scope py_scope.

Definition loc : Type := positive.

(** ** shastity/config.py *)
Module config.

(** The names bound at the top level of config.py. *)
Definition globals : list string :=
  ["absolute_import"; "with_statement"; "RequiredOptionMissingError";
   "BadOptionValueType"; "ConflictingMergeError"; "Option";
   "AbstractOption"; "StringOption"; "IntOption"; "Configuration";
   "DefaultConfiguration"].

Inductive option_class : Type :=
| AbstractOption
| StringOption
| IntOption.

Definition class_name (c : option_class) : string :=
  match c with
  | AbstractOption => "AbstractOption"
  | StringOption => "StringOption"
  | IntOption => "IntOption"
  end.

(** The instance attributes of an option.  [opt_value] is [None]
    while the attribute [__value] has not been assigned: the
    constructor assigns [__long_name], [__short_name] and [__set]
    only. *)
Record option_obj : Type := {
  opt_class : option_class;
  opt_long_name : string;
  opt_short_name : pyval;
  opt_set : bool;
  opt_value : option pyval
}.

(** The store: option instances and configuration instances, each
    addressed by reference.  A configuration's [__options] dict maps
    a name to a reference to an option. *)
Record heap : Type := {
  h_options : gmap loc option_obj;
  h_configurations : gmap loc (gmap string loc)
}.

Definition empty_heap : heap :=
  {| h_options := ∅; h_configurations := ∅ |}.

Definition deref_option (self : loc) : Py heap option_obj :=
  fun h => match h_options h !! self with
           | Some o => (h, Ok o)
           | None => (h, Raise (SystemError "dangling option reference"))
           end.

Definition store_option (self : loc) (o : option_obj) : Py heap unit :=
  fun h => ({| h_options := <[self := o]> (h_options h);
               h_configurations := h_configurations h |}, Ok tt).

Definition deref_configuration (self : loc) : Py heap (gmap string loc) :=
  fun h => match h_configurations h !! self with
           | Some d => (h, Ok d)
           | None => (h, Raise (SystemError "dangling configuration reference"))
           end.

Definition store_configuration (self : loc) (d : gmap string loc)
  : Py heap unit :=
  fun h => ({| h_options := h_options h;
               h_configurations := <[self := d]> (h_configurations h) |},
            Ok tt).

(** *** class Option / AbstractOption *)

(** [AbstractOption.__init__(self, long_name, short_name=None)],
    together with the allocation of the instance. *)
Definition AbstractOption__init__ (cls : option_class) (long_name : string)
    (short_name : pyval) : Py heap loc :=
  do h <- read;
  let self := fresh (dom (h_options h)) in
  store_option self {| opt_class := cls; opt_long_name := long_name;
                       opt_short_name := short_name; opt_set := false;
                       opt_value := None |} ;;
  ret self.

(** A call [cls(long_name, *args, **kwargs)] and the way Python 2
    binds it to the signature [(self, long_name, short_name=None)]:
    too many positional arguments are refused first, then the keyword
    arguments are bound in the order in which they are written. *)
Fixpoint bind_keywords (short_name : option pyval)
    (kwargs : list (string * pyval)) : result (option pyval) :=
  match kwargs with
  | [] => Ok short_name
  | (k, v) :: rest =>
      if String.eqb k "short_name" then
        match short_name with
        | Some _ =>
            Raise (TypeError
              "__init__() got multiple values for keyword argument 'short_name'")
        | None => bind_keywords (Some v) rest
        end
      else if String.eqb k "long_name" || String.eqb k "self" then
        Raise (TypeError
          ("__init__() got multiple values for keyword argument '"
             ++ k ++ "'")%string)
      else
        Raise (TypeError
          ("__init__() got an unexpected keyword argument '" ++ k ++ "'")%string)
  end.

Definition new_option (cls : option_class) (long_name : string)
    (args : list pyval) (kwargs : list (string * pyval)) : Py heap loc :=
  match args with
  | _ :: _ :: _ =>
      raise (TypeError
        ("__init__() takes at most 3 arguments ("
           ++ NilZero.string_of_uint
                (Nat.to_uint (2 + length args + length kwargs))
           ++ " given)")%string)
  | _ =>
      match bind_keywords (head args) kwargs with
      | Raise e => raise e
      | Ok short_name =>
          AbstractOption__init__ cls long_name (default PyNone short_name)
      end
  end.

Definition name (self : loc) : Py heap string :=
  do o <- deref_option self; ret (opt_long_name o).

Definition short_name (self : loc) : Py heap pyval :=
  do o <- deref_option self; ret (opt_short_name o).

(** The text Python 2 gives for the bound method object [self.name]
    of an instance of an old-style class. *)
Definition bound_method_text (cls : option_class) (method : string)
    (self : loc) : string :=
  ("<bound method " ++ class_name cls ++ "." ++ method
    ++ " of <shastity.config." ++ class_name cls ++ " instance at "
    ++ HexString.of_pos self ++ ">>")%string.

(** [Option.__str__]: [str(self.name)].  The attribute [name] is the
    method; it is not called. *)
Definition __str__ (self : loc) : Py heap string :=
  do o <- deref_option self; ret (bound_method_text (opt_class o) "name" self).

(** [Option.__unicode__]: [unicode(self.name)]. *)
Definition __unicode__ (self : loc) : Py heap string :=
  do o <- deref_option self; ret (bound_method_text (opt_class o) "name" self).

(** [int(x)] of Python 2 on the values of the model.  A string is
    stripped of surrounding white space and read as an optionally
    signed run of decimal digits; a result outside the machine word
    is a [long] (64-bit [sys.maxint]). *)
Definition is_space (c : ascii) : bool :=
  let n := nat_of_ascii c in
  (n =? 32)%nat || ((9 <=? n)%nat && (n <=? 13)%nat).

Fixpoint lstrip (s : string) : string :=
  match s with
  | String c s' => if is_space c then lstrip s' else s
  | EmptyString => EmptyString
  end.

Fixpoint rstrip (s : string) : string :=
  match s with
  | EmptyString => EmptyString
  | String c s' =>
      match rstrip s' with
      | EmptyString => if is_space c then EmptyString else String c EmptyString
      | r => String c r
      end
  end.

Definition digit_of (c : ascii) : option Z :=
  let n := nat_of_ascii c in
  if (48 <=? n)%nat && (n <=? 57)%nat then Some (Z.of_nat (n - 48)) else None.

Fixpoint digits (acc : Z) (s : string) : option Z :=
  match s with
  | EmptyString => Some acc
  | String c s' =>
      match digit_of c with
      | Some d => digits (10 * acc + d) s'
      | None => None
      end
  end.

Definition int_literal (s : string) : option Z :=
  match rstrip (lstrip s) with
  | EmptyString => None
  | String "-" EmptyString | String "+" EmptyString => None
  | String "-" ds => Z.opp <$> digits 0 ds
  | String "+" ds => digits 0 ds
  | ds => digits 0 ds
  end.

Definition int_or_long (z : Z) : pyval :=
  if ((- 2 ^ 63 <=? z) && (z <? 2 ^ 63))%Z then PyInt z else PyLong z.

Definition py_int (v : pyval) : result pyval :=
  match v with
  | PyNone =>
      Raise (TypeError
        "int() argument must be a string or a number, not 'NoneType'")
  | PyBool b => Ok (PyInt (if b then 1 else 0))
  | PyInt z => Ok (PyInt z)
  | PyLong z => Ok (int_or_long z)
  | PyStr s | PyUnicode s =>
      match int_literal s with
      | Some z => Ok (int_or_long z)
      | None => Raise ValueError
      end
  end.

(** [isinstance(obj, int)] holds of ints and of bools (a subclass of
    int). *)
Definition isinstance_int (v : pyval) : bool :=
  match v with PyInt _ | PyBool _ => true | _ => false end.

(** ['value %s of option %s ...' % (obj, u, ...)] with [u] a unicode:
    the format is a byte string, and as one of the values is unicode
    Python 2 makes the whole message unicode, decoding a byte string
    among the values as ASCII.  The text of the message is not kept. *)
Definition type_message (obj : pyval) (u : string) : result unit :=
  match obj with
  | PyStr s => if is_ascii s then Ok tt else Raise UnicodeDecodeError
  | _ => Ok tt
  end.

(** [_assertType(obj, typ)]: the message,
    ['value %s of option %s is not of type %s'
       % (obj, unicode(self), unicode(typ))],
    is built before the exception is. *)
Definition _assertType (self : loc) (isinstance_typ : pyval -> bool)
    (obj : pyval) : Py heap unit :=
  if isinstance_typ obj then ret tt
  else do u <- __unicode__ self;
       lift (type_message obj u) ;;
       raise BadOptionValueType.

(** [_assertString(obj)]: the message is
    ['value %s of option %s is not a string' % (obj, unicode(self))]. *)
Definition _assertString (self : loc) (obj : pyval) : Py heap unit :=
  match obj with
  | PyStr _ | PyUnicode _ => ret tt
  | _ => do u <- __unicode__ self;
         lift (type_message obj u) ;;
         raise BadOptionValueType
  end.

(** [_parse], dispatched on the class of [self]. *)
Definition _parse (self : loc) (s : pyval) : Py heap pyval :=
  do o <- deref_option self;
  match opt_class o with
  | AbstractOption => raise NotImplementedError
  | StringOption => ret s
  | IntOption => lift (py_int s)
  end.

(** [_validate], dispatched on the class of [self].  The base class
    raises a name that is bound nowhere. *)
Definition _validate (self : loc) (value : pyval) : Py heap unit :=
  do o <- deref_option self;
  match opt_class o with
  | AbstractOption =>
      raise_global globals "NotIMplementedError" NotImplementedError
  | StringOption => _assertString self value
  | IntOption => _assertType self isinstance_int value
  end.

Definition set (self : loc) (value : pyval) : Py heap loc :=
  _validate self value ;;
  do o <- deref_option self;
  store_option self {| opt_class := opt_class o;
                       opt_long_name := opt_long_name o;
                       opt_short_name := opt_short_name o;
                       opt_set := true;
                       opt_value := Some value |} ;;
  ret self.

Definition parse (self : loc) (value : pyval) : Py heap loc :=
  do v <- _parse self value;
  set self v ;;
  ret self.

Definition get (self : loc) : Py heap pyval :=
  do o <- deref_option self;
  match opt_value o with
  | Some v => ret v
  | None => raise (AttributeError "_AbstractOption__value")
  end.

Definition get_required (self : loc) (comment : pyval) : Py heap pyval :=
  do o <- deref_option self;
  if negb (opt_set o)
  then do u <- __unicode__ self;
       raise (RequiredOptionMissingError u comment)
  else get self.

(** *** class DefaultConfiguration *)

Definition options (self : loc) : Py heap (gmap string loc) :=
  deref_configuration self.

Definition remove_option (self : loc) (name : string) : Py heap unit :=
  do d <- deref_configuration self;
  match d !! name with
  | Some _ => store_configuration self (delete name d)
  | None => raise (KeyError name)
  end.

Definition add_option (self : loc) (option : loc) : Py heap unit :=
  do n <- name option;
  do d <- deref_configuration self;
  if bool_decide (n ∈ dom d)
  then raise_global globals "DuplicateOptionError" (DuplicateOptionError n)
  else store_configuration self (<[n := option]> d).

Definition get_option (self : loc) (name : string) : Py heap loc :=
  do d <- deref_configuration self;
  match d !! name with
  | Some o => ret o
  | None => raise (KeyError name)
  end.

Definition has_option (self : loc) (name : string) : Py heap bool :=
  do d <- deref_configuration self;
  ret (bool_decide (name ∈ dom d)).

(** The order in which a dict hands out its items when it is walked.
    Python leaves that order open (CPython 2 walks the slots of its
    hash table, later versions walk in the order of insertion), so it
    is taken as given: any way of listing the items of a dict, each
    once. *)
Class DictOrder : Type := {
  iteritems : gmap string loc -> list (string * loc);
  iteritems_items : forall d, iteritems d ≡ₚ map_to_list d
}.

(** [DefaultConfiguration.__init__(self, opts=None)], together with
    the allocation of the instance. *)
Definition DefaultConfiguration__init__ {order : DictOrder}
    (opts : option (gmap string loc)) : Py heap loc :=
  do h <- read;
  let self := fresh (dom (h_configurations h)) in
  store_configuration self ∅ ;;
  match opts with
  | None => ret tt
  | Some d =>
      if bool_decide (d = ∅) then ret tt
      else for_each (iteritems d) (fun '(n, opt) =>
             do on <- name opt;
             assert_ (String.eqb n on) ;;
             add_option self opt)
  end ;;
  ret self.

Definition merge {order : DictOrder} (self other : loc)
    (allow_override : bool) : Py heap loc :=
  do so <- options self;
  do ret_ <- DefaultConfiguration__init__ (Some so);
  do oo <- options other;
  for_each (iteritems oo) (fun '(_, opt) =>
    do n <- name opt;
    do has <- has_option ret_ n;
    (if has
     then if allow_override
          then do n' <- name opt; remove_option ret_ n'
          else do n' <- name opt; raise (ConflictingMergeError n')
     else ret tt) ;;
    add_option ret_ opt) ;;
  ret ret_.

End config.

(** ** shastity/filesystem.py *)
Module filesystem.

(** The names bound at the top level of filesystem.py: the imports
    are os, os.path, shutil and tempfile. *)
Definition globals : list string :=
  ["absolute_import"; "with_statement"; "os"; "shutil"; "tempfile";
   "StaleTemporaryDirectory"; "TemporaryDirectory"; "FileSystem";
   "LocalFileSystem"; "MemoryFileSystem"].

(** [raise OSError(errno.E, msg)]: the arguments are evaluated first,
    and [errno] is a global name of the module. *)
Definition raise_OSError {S A} (code : string) : Py S A :=
  raise_global globals "errno" (OSError code).

(** The operating system primitives the module calls. *)
Class OperatingSystem (OS : Type) : Type := {
  os_path_exists : string -> OS -> bool;
  os_mkdir : string -> Py OS unit;
  os_rmdir : string -> Py OS unit;
  os_unlink : string -> Py OS unit;
  os_symlink : string -> string -> Py OS unit;
  shutil_rmtree : string -> Py OS unit;
  tempfile_mkdtemp : string -> Py OS string
}.

(** *** class TemporaryDirectory *)

Record TemporaryDirectory : Type := {
  td_fs : loc;
  td_path : string;
  td_stale : bool
}.

Definition TemporaryDirectory__init__ (fs : loc) (path : string)
  : TemporaryDirectory :=
  {| td_fs := fs; td_path := path; td_stale := false |}.

(** *** class FileSystem: the interface.  [W] is the world a file
    system acts on. *)
Class FileSystem (W : Type) : Type := {
  mkdir : string -> Py W unit;
  rmdir : string -> Py W unit;
  unlink : string -> Py W unit;
  symlink : string -> string -> Py W unit;
  exists_ : string -> Py W bool;
  rmtree : string -> Py W unit;
  mkdtemp : option string -> Py W string;
  tempdir : loc -> option string -> Py W TemporaryDirectory
}.

(** [FileSystem.tempdir], the default of the base class: the suffix
    is not handed on to [mkdtemp]. *)
Definition FileSystem_tempdir {W} (mkdtemp : option string -> Py W string)
    (self : loc) (suffix : option string) : Py W TemporaryDirectory :=
  do dirname <- mkdtemp None;
  ret (TemporaryDirectory__init__ self dirname).

(** The state a method of a handle runs in: the handle's own
    attributes and the world of its file system. *)
Definition handle (W : Type) : Type := (TemporaryDirectory * W)%type.

Section TemporaryDirectory_methods.
Context {W : Type} `{FileSystem W}.

Definition close : Py (handle W) unit :=
  fun '(self, w) =>
    if negb (td_stale self)
    then
      let self' := {| td_fs := td_fs self; td_path := td_path self;
                      td_stale := true |} in
      let '(w', r) := rmtree (td_path self) w in
      ((self', w'), r)
    else ((self, w), Ok tt).

Definition __enter__ : Py (handle W) unit := ret tt.

(** [__exit__(self, type, value, traceback)]: the three arguments
    are not looked at, and the method returns None, so an exception
    of the body is not swallowed. *)
Definition __exit__ (exc : option exn) : Py (handle W) unit := close.

Definition __get_fs : Py (handle W) loc :=
  fun '(self, w) =>
    if td_stale self
    then ((self, w), Raise (StaleTemporaryDirectory (td_path self)))
    else ((self, w), Ok (td_fs self)).

Definition __get_path : Py (handle W) string :=
  fun '(self, w) =>
    if td_stale self
    then ((self, w), Raise (StaleTemporaryDirectory (td_path self)))
    else ((self, w), Ok (td_path self)).

(** [with self: body] *)
Definition with_ {A} (body : Py (handle W) A) : Py (handle W) A :=
  fun s =>
    let '(s1, _) := __enter__ s in
    let '(s2, r) := body s1 in
    let exc := match r with Ok _ => None | Raise e => Some e end in
    match __exit__ exc s2 with
    | (s3, Ok _) => (s3, r)
    | (s3, Raise e) => (s3, Raise e)
    end.

(** What a client can do with a handle, and a life of a handle as
    the sequence of what was done with it; a client may catch what
    a step raises and go on. *)
Inductive td_op : Type :=
| OpEnter
| OpExit (exc : option exn)
| OpClose
| OpGetFs
| OpGetPath.

Definition is_closing (op : td_op) : bool :=
  match op with OpExit _ | OpClose => true | _ => false end.

Definition step (op : td_op) (s : handle W) : handle W :=
  match op with
  | OpEnter => fst (__enter__ s)
  | OpExit exc => fst (__exit__ exc s)
  | OpClose => fst (close s)
  | OpGetFs => fst (__get_fs s)
  | OpGetPath => fst (__get_path s)
  end.

Definition run (ops : list td_op) (s : handle W) : handle W :=
  foldl (fun s op => step op s) s ops.

End TemporaryDirectory_methods.

(** *** class LocalFileSystem *)
Section LocalFileSystem.
Context {OS : Type} `{OperatingSystem OS}.

Definition LocalFileSystem_mkdtemp (suffix : option string) : Py OS string :=
  tempfile_mkdtemp (match suffix with None => "" | Some s => s end).

#[export] Instance LocalFileSystem : FileSystem OS := {|
  mkdir := os_mkdir;
  rmdir := os_rmdir;
  unlink := os_unlink;
  symlink := os_symlink;
  exists_ := fun path os => (os, Ok (os_path_exists path os));
  rmtree := shutil_rmtree;
  mkdtemp := LocalFileSystem_mkdtemp;
  tempdir := FileSystem_tempdir LocalFileSystem_mkdtemp
|}.
End LocalFileSystem.

(** *** class MemoryFileSystem *)

(** The tree: a directory is a dict from entry names to nodes, a file
    is the tuple ("file", [contents]) and a symlink the tuple
    ("symlink", target). *)
Inductive node : Type :=
| Dir (entries : list (string * node))
| File (contents : string)
| Symlink (target : string).

Fixpoint entry (k : string) (es : list (string * node)) : option node :=
  match es with
  | [] => None
  | (k', n) :: es' => if String.eqb k k' then Some n else entry k es'
  end.

Fixpoint set_entry (k : string) (v : node) (es : list (string * node))
  : list (string * node) :=
  match es with
  | [] => [(k, v)]
  | (k', n) :: es' =>
      if String.eqb k k' then (k, v) :: es' else (k', n) :: set_entry k v es'
  end.

(** [dict(tmp=dict())] *)
Definition initial_tree : node := Dir [("tmp", Dir [])].

(** The world of a MemoryFileSystem: the operating system the process
    runs on, and the tree of the instance. *)
Record memory_world (OS : Type) : Type := {
  mw_os : OS;
  mw_tree : node
}.
Arguments mw_os {OS} _.
Arguments mw_tree {OS} _.

Definition MemoryFileSystem__init__ {OS} (os : OS) : memory_world OS :=
  {| mw_os := os; mw_tree := initial_tree |}.

(** [s.split('/')] *)
Fixpoint split_slash (s : string) : list string :=
  match s with
  | EmptyString => [EmptyString]
  | String c s' =>
      if Ascii.eqb c "/" then EmptyString :: split_slash s'
      else match split_slash s' with
           | h :: t => String c h :: t
           | [] => [String c EmptyString]
           end
  end.

(** What [__lookup] hands back: None, or a node of the tree, known by
    the path that leads to it since the caller goes on to update it
    in place. *)
Inductive looked_up : Type :=
| LNone
| LNode (at_ : list string) (n : node).

(** The inner function [rec] of [__lookup].  The recursive call is a
    statement of its own: what it returns is dropped and the function
    falls off its end. *)
Fixpoint rec {S} (here : list string) (cur : node) (comps : list string)
  : Py S looked_up :=
  match comps with
  | [] => ret (LNode here cur)
  | c :: comps' =>
      match cur with
      | Dir es =>
          match entry c es with
          | Some child =>
              rec (here ++ [c]) child comps' ;;
              ret LNone
          | None => raise_OSError "ENOENT"
          end
      | _ => raise_OSError "ENOTDIR"
      end
  end.

Definition __lookup {OS} (path : string) : Py (memory_world OS) looked_up :=
  do w <- read;
  rec [] (mw_tree w) (split_slash path).

(** [os.path.split] of posixpath: everything after the last slash is
    the tail; the head loses its trailing slashes unless it consists
    of slashes only. *)
Fixpoint rfind_split (rev_s : list ascii) (tail : list ascii)
  : list ascii * list ascii :=
  match rev_s with
  | [] => ([], tail)
  | c :: r =>
      if Ascii.eqb c "/" then (rev rev_s, tail)
      else rfind_split r (c :: tail)
  end.

Fixpoint drop_slashes (rev_s : list ascii) : list ascii :=
  match rev_s with
  | c :: r => if Ascii.eqb c "/" then drop_slashes r else rev_s
  | [] => []
  end.

Definition os_path_split (p : string) : string * string :=
  let '(head, tail) := rfind_split (rev (list_ascii_of_string p)) [] in
  let head' :=
    match drop_slashes (rev head) with
    | [] => head
    | stripped => rev stripped
    end in
  (string_of_list_ascii head', string_of_list_ascii tail).

Definition nonempty (s : string) : bool :=
  match s with EmptyString => false | _ => true end.

Definition __split_slash_agnostically {S} (path : string)
  : Py S (string * string) :=
  let '(directory, file) := os_path_split path in
  let '(directory, file) :=
    if negb (nonempty file) then os_path_split directory
    else (directory, file) in
  assert_ (nonempty directory) ;;
  assert_ (nonempty file) ;;
  ret (directory, file).

(** [d[k] = v] for the directory [d] found at [at_]. *)
Fixpoint assign_at (t : node) (at_ : list string) (k : string) (v : node)
  : node :=
  match t with
  | Dir es =>
      match at_ with
      | [] => Dir (set_entry k v es)
      | c :: at' =>
          match entry c es with
          | Some child => Dir (set_entry c (assign_at child at' k v) es)
          | None => t
          end
      end
  | _ => t
  end.

Definition MemoryFileSystem_mkdir {OS} (path : string)
  : Py (memory_world OS) unit :=
  do dn <- __split_slash_agnostically path;
  let '(directory, newdir) := dn in
  do d <- __lookup path;
  match d with
  | LNone =>
      raise (TypeError "argument of type 'NoneType' is not iterable")
  | LNode at_ (Dir es) =>
      match entry newdir es with
      | Some _ => raise_OSError "EEXIST"
      | None =>
          do w <- read;
          write {| mw_os := mw_os w;
                   mw_tree := assign_at (mw_tree w) at_ newdir (Dir []) |}
      end
  | LNode _ (File _) =>
      if String.eqb newdir "file" then raise_OSError "EEXIST"
      else raise (TypeError "'tuple' object does not support item assignment")
  | LNode _ (Symlink target) =>
      if String.eqb newdir "symlink" || String.eqb newdir target
      then raise_OSError "EEXIST"
      else raise (TypeError "'tuple' object does not support item assignment")
  end.

Section MemoryFileSystem.
Context {OS : Type} `{OperatingSystem OS}.

(** [MemoryFileSystem.exists]: [return os.path.exists(path)]. *)
Definition MemoryFileSystem_exists (path : string)
  : Py (memory_world OS) bool :=
  do w <- read;
  ret (os_path_exists path (mw_os w)).

(** [MemoryFileSystem.tempdir]: [dirname] is bound nowhere. *)
Definition MemoryFileSystem_tempdir (self : loc) (suffix : option string)
  : Py (memory_world OS) TemporaryDirectory :=
  match load_global globals "dirname" with
  | Ok _ => ret (TemporaryDirectory__init__ self "")
  | Raise e => raise e
  end.

#[export] Instance MemoryFileSystem : FileSystem (memory_world OS) := {|
  mkdir := MemoryFileSystem_mkdir;
  rmdir := fun _ => raise NotImplementedError;
  unlink := fun _ => raise NotImplementedError;
  symlink := fun _ _ => raise NotImplementedError;
  exists_ := MemoryFileSystem_exists;
  rmtree := fun _ => raise NotImplementedError;
  mkdtemp := fun _ => raise NotImplementedError;
  tempdir := MemoryFileSystem_tempdir
|}.
End MemoryFileSystem.

(** *** Observing which methods of a file system are invoked *)

Inductive call : Type :=
| CallMkdir (path : string)
| CallRmdir (path : string)
| CallUnlink (path : string)
| CallSymlink (src dst : string)
| CallExists (path : string)
| CallRmtree (path : string)
| CallMkdtemp (suffix : option string)
| CallTempdir (suffix : option string).

Record traced (W : Type) : Type := {
  inner : W;
  calls : list call
}.
Arguments inner {W} _.
Arguments calls {W} _.

(** Run [m] on the file system inside after writing down that it was
    invoked. *)
Definition logged {W A} (c : call) (m : Py W A) : Py (traced W) A :=
  fun t =>
    let '(w', r) := m (inner t) in
    ({| inner := w'; calls := calls t ++ [c] |}, r).

#[export] Instance Traced {W} `{FileSystem W} : FileSystem (traced W) := {|
  mkdir := fun p => logged (CallMkdir p) (mkdir p);
  rmdir := fun p => logged (CallRmdir p) (rmdir p);
  unlink := fun p => logged (CallUnlink p) (unlink p);
  symlink := fun s d => logged (CallSymlink s d) (symlink s d);
  exists_ := fun p => logged (CallExists p) (exists_ p);
  rmtree := fun p => logged (CallRmtree p) (rmtree p);
  mkdtemp := fun sfx => logged (CallMkdtemp sfx) (mkdtemp sfx);
  tempdir := fun self sfx => logged (CallTempdir sfx) (tempdir self sfx)
|}.

(** An operating system mounted read-only, known by the set of paths
    that exist on it. *)
#[export] Instance ReadOnlyOS : OperatingSystem (gset string) := {|
  os_path_exists := fun p os => bool_decide (p ∈ os);
  os_mkdir := fun _ => raise (OSError "EROFS");
  os_rmdir := fun _ => raise (OSError "EROFS");
  os_unlink := fun _ => raise (OSError "EROFS");
  os_symlink := fun _ _ => raise (OSError "EROFS");
  shutil_rmtree := fun _ => raise (OSError "EROFS");
  tempfile_mkdtemp := fun _ => raise (OSError "EROFS")
|}.

End filesystem.

(** * Vocabulary of the statements *)

(** The class invariant of a configuration in a store: every key of
    the dict is the name of the option it maps to. *)
Definition names_agree (h : config.heap) (d : gmap string loc) : Prop :=
  map_Forall (fun n l =>
    config.opt_long_name <$> config.h_options h !! l = Some n) d.

(** The store [h] with the dict of the configuration [c] set to [d]. *)
Definition with_conf (h : config.heap) (c : loc) (d : gmap string loc)
  : config.heap :=
  {| config.h_options := config.h_options h;
     config.h_configurations := <[c := d]> (config.h_configurations h) |}.

(** The reference [DefaultConfiguration()] allocates in the store [h]. *)
Definition new_conf (h : config.heap) : loc :=
  fresh (dom (config.h_configurations h)).

(** The body of the loop of [merge], as in its definition. *)
Definition merge_body (ret_ : loc) (allow_override : bool)
  : string * loc -> Py config.heap unit :=
  fun '(_, opt) =>
    do n <- config.name opt;
    do has <- config.has_option ret_ n;
    (if has
     then if allow_override
          then do n' <- config.name opt; config.remove_option ret_ n'
          else do n' <- config.name opt; raise (ConflictingMergeError n')
     else ret tt) ;;
    config.add_option ret_ opt.

(** A store to try things on: the options o1, o2 and a second o2 with
    the short name o; a configuration holding the first two, one
    holding the third and one holding o1 alone. *)
Definition unset_option (long_name : string) (short_name : pyval)
  : config.option_obj :=
  {| config.opt_class := config.StringOption;
     config.opt_long_name := long_name;
     config.opt_short_name := short_name;
     config.opt_set := false;
     config.opt_value := None |}.

Definition demo_heap : config.heap :=
  {| config.h_options :=
       {[ 1%positive := unset_option "o1" PyNone;
          2%positive := unset_option "o2" PyNone;
          3%positive := unset_option "o2" (PyStr "o") ]};
     config.h_configurations :=
       {[ 1%positive := {[ "o1" := 1%positive; "o2" := 2%positive ]};
          2%positive := {[ "o2" := 3%positive ]};
          3%positive := {[ "o1" := 1%positive ]} ]} |}.

(** An order to try things on: the keys from the last to the first.
    It walks the dict of the names o1 and o2 as CPython 2.7 walks it,
    o2 before o1. *)
Definition demo_order : config.DictOrder :=
  {| config.iteritems := fun d => reverse (map_to_list d);
     config.iteritems_items := fun d => reverse_Permutation (map_to_list d) |}.

(** The way the constructors build that store. *)
Definition build_demo_heap {order : config.DictOrder}
  : Py config.heap unit :=
  do o1 <- config.new_option config.StringOption "o1" [] [];
  do o2 <- config.new_option config.StringOption "o2" [] [];
  do o3 <- config.new_option config.StringOption "o2" [PyStr "o"] [];
  do c1 <- config.DefaultConfiguration__init__ None;
  config.add_option c1 o1 ;;
  config.add_option c1 o2 ;;
  do c2 <- config.DefaultConfiguration__init__ (Some {[ "o2" := o3 ]});
  do c3 <- config.DefaultConfiguration__init__ (Some {[ "o1" := o1 ]});
  ret tt.

(** What the specification says of sharing, at one merge: setting an
    option reached through the result is not seen by a read of an
    option reached through an input. *)
Definition merge_isolates {order : config.DictOrder} (h : config.heap)
    (self other : loc) (allow_override : bool) : Prop :=
  forall h1 r n o v h2 input m oi,
    config.merge self other allow_override h = (h1, Ok r) ->
    config.get_option r n h1 = (h1, Ok o) ->
    config.set o v h1 = (h2, Ok o) ->
    input = self \/ input = other ->
    config.get_option input m h2 = (h2, Ok oi) ->
    snd (config.get oi h2) = snd (config.get oi h1).

(** A handle just made on the file system [w], with a record of the
    calls the file system receives. *)
Definition new_handle {W} (fs : loc) (path : string) (w : W)
  : filesystem.handle (filesystem.traced W) :=
  (filesystem.TemporaryDirectory__init__ fs path,
   {| filesystem.inner := w; filesystem.calls := [] |}).

(** A new MemoryFileSystem in a process that sees no file at all. *)
Definition fresh_memory_fs : filesystem.memory_world (gset string) :=
  filesystem.MemoryFileSystem__init__ ∅.

(** ** shastity/commands.py *)
Module commands.

(** [class Command]: a name, the names of the positional arguments and
    the options of the command. *)
Record Command (O : Type) : Type := {
  name : string;
  args : list string;
  options : O
}.
Arguments name {O} _.
Arguments args {O} _.
Arguments options {O} _.

Section registry.
(** The module shastity.options is imported by commands.py and is not
    part of the sources: what [options.GlobalOptions()] gives is taken
    as given. *)
Context {O : Type} (GlobalOptions : unit -> O).

Definition _all_commands : list (Command O) :=
  [ {| name := "persist"; args := ["src-path"; "dst-uri"];
       options := GlobalOptions tt |};
    {| name := "materialize"; args := ["src-uri"; "dst-path"];
       options := GlobalOptions tt |};
    {| name := "verify"; args := ["src-path"; "dst-uri"];
       options := GlobalOptions tt |};
    {| name := "garbage-collect"; args := ["dst-uri"];
       options := GlobalOptions tt |} ].

Definition all_commands : list (Command O) := _all_commands.

(** [len([cmd for cmd in all_commands() if cmd.name == name]) > 0] *)
Definition has_command (n : string) : bool :=
  (0 <? length (List.filter (fun cmd => String.eqb (name cmd) n)
                            all_commands))%nat.

End registry.

(** The four functions of the module, each of which raises at once. *)
Definition persist {C} (config : C) : result unit := Raise NotImplementedError.
Definition materialize {C} (config : C) : result unit :=
  Raise NotImplementedError.
Definition verify {C} (config : C) : result unit := Raise NotImplementedError.
Definition garbage_collect {C} (config : C) : result unit :=
  Raise NotImplementedError.

End commands.

(** ** More vocabulary *)

(** Whether walking the components [comps] from the node [t] arrives
    somewhere: every component but the last is looked up in a
    directory. *)
Fixpoint resolves (t : filesystem.node) (comps : list string) : bool :=
  match comps with
  | [] => true
  | c :: comps' =>
      match t with
      | filesystem.Dir es =>
          match filesystem.entry c es with
          | Some child => resolves child comps'
          | None => false
          end
      | _ => false
      end
  end.

(** The string of [n] slashes. *)
Fixpoint slashes (n : nat) : string :=
  match n with
  | O => EmptyString
  | S n' => String "/" (slashes n')
  end.

(** The last character of a string, if it has one. *)
Fixpoint last_char (s : string) : option ascii :=
  match s with
  | EmptyString => None
  | String c EmptyString => Some c
  | String _ s' => last_char s'
  end.

(** Whether a string has a slash in it. *)
Fixpoint has_slash (s : string) : bool :=
  match s with
  | EmptyString => false
  | String c s' => Ascii.eqb c "/" || has_slash s'
  end.

(** The reference a constructor or a merge returned, or the first
    reference if it raised. *)
Definition snd_ok {S} (x : S * result loc) : loc :=
  match snd x with Ok l => l | Raise _ => 1%positive end.

(** Whether a call returned rather than raised. *)
Definition returned {A} (r : result A) : bool :=
  match r with Ok _ => true | Raise _ => false end.

(** The calls a client can make on a file system, and what a sequence
    of them leaves of the world; a client may catch what a call raises
    and go on. *)
Inductive fs_op : Type :=
| FsMkdir (path : string)
| FsRmdir (path : string)
| FsUnlink (path : string)
| FsSymlink (src dst : string)
| FsExists (path : string)
| FsRmtree (path : string)
| FsMkdtemp (suffix : option string)
| FsTempdir (self : loc) (suffix : option string).

Definition fs_call {W} `{filesystem.FileSystem W} (op : fs_op) (w : W)
  : W * bool :=
  match op with
  | FsMkdir p => let '(w', r) := filesystem.mkdir p w in (w', returned r)
  | FsRmdir p => let '(w', r) := filesystem.rmdir p w in (w', returned r)
  | FsUnlink p => let '(w', r) := filesystem.unlink p w in (w', returned r)
  | FsSymlink s d =>
      let '(w', r) := filesystem.symlink s d w in (w', returned r)
  | FsExists p => let '(w', r) := filesystem.exists_ p w in (w', returned r)
  | FsRmtree p => let '(w', r) := filesystem.rmtree p w in (w', returned r)
  | FsMkdtemp sfx =>
      let '(w', r) := filesystem.mkdtemp sfx w in (w', returned r)
  | FsTempdir self sfx =>
      let '(w', r) := filesystem.tempdir self sfx w in (w', returned r)
  end.

Definition fs_run {W} `{filesystem.FileSystem W} (ops : list fs_op) (w : W)
  : W :=
  foldl (fun w op => fst (fs_call op w)) w ops.

(** * Properties *)

(** ** Reasoning about computations *)

Lemma bind_ok {S A B} (c : Py S A) (k : A -> Py S B) s s' a :
  c s = (s', Ok a) -> bind c k s = k a s'.
Proof. intros E. unfold bind. now rewrite E. Qed.

Lemma bind_raise {S A B} (c : Py S A) (k : A -> Py S B) s s' e :
  c s = (s', Raise e) -> bind c k s = (s', Raise e).
Proof. intros E. unfold bind. now rewrite E. Qed.

(** ** Configurations *)
Section configuration_facts.
Import config.

Lemma elem_of_iteritems {order : DictOrder} (d : gmap string loc) k v :
  (k, v) ∈ iteritems d <-> d !! k = Some v.
Proof. rewrite (iteritems_items d). apply elem_of_map_to_list. Qed.

Lemma NoDup_fst_iteritems {order : DictOrder} (d : gmap string loc) :
  NoDup (iteritems d).*1.
Proof. rewrite (iteritems_items d). apply NoDup_fst_map_to_list. Qed.

Lemma list_to_map_iteritems {order : DictOrder} (d : gmap string loc) :
  list_to_map (iteritems d) = d.
Proof.
  rewrite <- (list_to_map_to_list d) at 2.
  apply list_to_map_proper; [apply NoDup_fst_iteritems|].
  apply iteritems_items.
Qed.

Lemma iteritems_empty_iff {order : DictOrder} (d : gmap string loc) :
  iteritems d = [] <-> d = ∅.
Proof.
  rewrite <- map_to_list_empty_iff. split; intros E.
  - apply Permutation_nil_r. rewrite <- (iteritems_items d), E. reflexivity.
  - apply Permutation_nil_r. rewrite (iteritems_items d), E. reflexivity.
Qed.

Lemma with_conf_twice h c d d' :
  with_conf (with_conf h c d) c d' = with_conf h c d'.
Proof. unfold with_conf; cbn. now rewrite insert_insert_eq. Qed.

Lemma with_conf_lookup h c d : h_configurations (with_conf h c d) !! c = Some d.
Proof. cbn. apply lookup_insert_eq. Qed.

Lemma name_eq h l o :
  h_options h !! l = Some o -> name l h = (h, Ok (opt_long_name o)).
Proof. intros E. unfold name, bind, deref_option, ret. now rewrite E. Qed.

Lemma has_option_eq h c d n :
  h_configurations h !! c = Some d ->
  has_option c n h = (h, Ok (bool_decide (n ∈ dom d))).
Proof.
  intros E. unfold has_option, bind, deref_configuration, ret. now rewrite E.
Qed.

Lemma add_option_new h c d l o :
  h_options h !! l = Some o ->
  h_configurations h !! c = Some d ->
  opt_long_name o ∉ dom d ->
  add_option c l h = (with_conf h c (<[opt_long_name o := l]> d), Ok tt).
Proof.
  intros El Ec Hn. unfold add_option.
  rewrite (bind_ok _ _ _ _ _ (name_eq _ _ _ El)).
  unfold bind, deref_configuration. rewrite Ec.
  rewrite bool_decide_eq_false_2 by assumption. reflexivity.
Qed.

Lemma remove_option_present h c d n :
  h_configurations h !! c = Some d -> n ∈ dom d ->
  remove_option c n h = (with_conf h c (delete n d), Ok tt).
Proof.
  intros Ec Hn. unfold remove_option, bind, deref_configuration.
  rewrite Ec. apply elem_of_dom in Hn as [x Hx]. now rewrite Hx.
Qed.

(** The loop of the constructor over the entries [l] of the dict it
    is given, started on a configuration whose dict is [d0]. *)
Lemma init_loop c : forall (l : list (string * loc)) h d0,
  NoDup l.*1 ->
  (forall n o, (n, o) ∈ l ->
     exists ob, h_options h !! o = Some ob /\ opt_long_name ob = n) ->
  (forall n, n ∈ l.*1 -> n ∉ dom d0) ->
  h_configurations h !! c = Some d0 ->
  for_each l (fun '(n, opt) =>
      do on <- name opt;
      assert_ (String.eqb n on) ;;
      add_option c opt) h
  = (with_conf h c (list_to_map l ∪ d0), Ok tt).
Proof.
  induction l as [|[n o] l IH]; intros h d0 ND Hn Hf Hc.
  - cbn. unfold ret. f_equal. unfold with_conf.
    rewrite (left_id_L ∅ (∪)). rewrite insert_id by assumption.
    now destruct h.
  - cbn [for_each]. inversion ND as [|? ? Hnot ND']; subst.
    destruct (Hn n o) as (ob & Eo & En); [left|].
    erewrite bind_ok; cycle 1.
    { erewrite bind_ok by (apply name_eq; eassumption).
      rewrite En, String.eqb_refl. cbn [assert_].
      erewrite bind_ok by reflexivity.
      rewrite <- En. apply add_option_new; try eassumption.
      rewrite En. apply Hf. cbn. left. }
    rewrite En.
    rewrite (IH (with_conf h c (<[n:=o]> d0)) (<[n:=o]> d0)).
    + rewrite with_conf_twice. f_equal. f_equal. cbn [list_to_map foldr].
      cbn. rewrite <- insert_union_l. symmetry. apply insert_union_r.
      apply not_elem_of_list_to_map_1. exact Hnot.
    + exact ND'.
    + intros n' o' Hin. cbn. apply Hn. now right.
    + intros n' Hin. rewrite dom_insert.
      intros [E%elem_of_singleton|E]%elem_of_union.
      * subst. contradiction.
      * eapply Hf; [|exact E]. cbn. now right.
    + apply with_conf_lookup.
Qed.
End configuration_facts.

Section merge_facts.
Import config.

Lemma merge_unfold {order : DictOrder} self other ao :
  merge self other ao =
  (do so <- options self;
   do ret_ <- DefaultConfiguration__init__ (Some so);
   do oo <- options other;
   for_each (iteritems oo) (merge_body ret_ ao) ;;
   ret ret_).
Proof. reflexivity. Qed.

Lemma merge_step_insert h c d k l o ao :
  h_options h !! l = Some o ->
  h_configurations h !! c = Some d ->
  ao = true \/ opt_long_name o ∉ dom d ->
  merge_body c ao (k, l) h
  = (with_conf h c (<[opt_long_name o := l]> d), Ok tt).
Proof.
  intros El Ec Hcase. unfold merge_body.
  rewrite (bind_ok _ _ _ _ _ (name_eq _ _ _ El)).
  rewrite (bind_ok _ _ _ _ _ (has_option_eq _ _ _ _ Ec)).
  destruct (decide (opt_long_name o ∈ dom d)) as [Hin|Hout].
  - rewrite bool_decide_eq_true_2 by assumption.
    destruct Hcase as [->|]; [|contradiction].
    erewrite bind_ok; cycle 1.
    { rewrite (bind_ok _ _ _ _ _ (name_eq _ _ _ El)).
      apply remove_option_present; eassumption. }
    erewrite add_option_new; [| exact El | apply with_conf_lookup |].
    + rewrite with_conf_twice, insert_delete_eq. reflexivity.
    + rewrite dom_delete. intros [_ Hx]%elem_of_difference.
      apply Hx. now apply elem_of_singleton.
  - rewrite bool_decide_eq_false_2 by assumption.
    erewrite bind_ok by reflexivity.
    apply add_option_new; assumption.
Qed.

Lemma merge_step_conflict h c d k l o :
  h_options h !! l = Some o ->
  h_configurations h !! c = Some d ->
  opt_long_name o ∈ dom d ->
  merge_body c false (k, l) h
  = (h, Raise (ConflictingMergeError (opt_long_name o))).
Proof.
  intros El Ec Hin. unfold merge_body.
  rewrite (bind_ok _ _ _ _ _ (name_eq _ _ _ El)).
  rewrite (bind_ok _ _ _ _ _ (has_option_eq _ _ _ _ Ec)).
  rewrite bool_decide_eq_true_2 by assumption.
  erewrite bind_raise; [reflexivity|].
  rewrite (bind_ok _ _ _ _ _ (name_eq _ _ _ El)). reflexivity.
Qed.

(** The loop of [merge] when no entry stops it: every entry of [l]
    ends up in the dict of [c], over what was there. *)
Lemma merge_loop_ok c ao : forall (l : list (string * loc)) h d0,
  NoDup l.*1 ->
  (forall n o, (n, o) ∈ l ->
     exists ob, h_options h !! o = Some ob /\ opt_long_name ob = n) ->
  ao = true \/ (forall n, n ∈ l.*1 -> n ∉ dom d0) ->
  h_configurations h !! c = Some d0 ->
  for_each l (merge_body c ao) h
  = (with_conf h c (list_to_map l ∪ d0), Ok tt).
Proof.
  induction l as [|[n o] l IH]; intros h d0 ND Hn Hcase Hc.
  - cbn. unfold ret. f_equal. unfold with_conf.
    rewrite (left_id_L ∅ (∪)). rewrite insert_id by assumption.
    now destruct h.
  - cbn [for_each]. inversion ND as [|? ? Hnot ND']; subst.
    destruct (Hn n o) as (ob & Eo & En); [left|].
    erewrite bind_ok; cycle 1.
    { apply merge_step_insert; try eassumption.
      destruct Hcase as [->|Hf]; [now left|right].
      rewrite En. apply Hf. cbn. left. }
    rewrite En.
    rewrite (IH (with_conf h c (<[n:=o]> d0)) (<[n:=o]> d0)).
    + rewrite with_conf_twice. f_equal. f_equal. cbn.
      rewrite <- insert_union_l. symmetry. apply insert_union_r.
      apply not_elem_of_list_to_map_1. exact Hnot.
    + exact ND'.
    + intros n' o' Hin. cbn. apply Hn. now right.
    + destruct Hcase as [->|Hf]; [now left|right].
      intros n' Hin. rewrite dom_insert.
      intros [E%elem_of_singleton|E]%elem_of_union.
      * subst. contradiction.
      * eapply Hf; [|exact E]. cbn. now right.
    + apply with_conf_lookup.
Qed.

(** The loop of [merge] without override, stopped by the first entry
    whose name the dict of [c] already has. *)
Lemma merge_loop_conflict c (l1 l2 : list (string * loc)) n o h d0 :
  NoDup (l1 ++ (n, o) :: l2).*1 ->
  (forall n' o', (n', o') ∈ l1 ++ (n, o) :: l2 ->
     exists ob, h_options h !! o' = Some ob /\ opt_long_name ob = n') ->
  (forall n', n' ∈ l1.*1 -> n' ∉ dom d0) ->
  n ∈ dom d0 ->
  h_configurations h !! c = Some d0 ->
  for_each (l1 ++ (n, o) :: l2) (merge_body c false) h
  = (with_conf h c (list_to_map l1 ∪ d0), Raise (ConflictingMergeError n)).
Proof.
  revert h d0. induction l1 as [|[n1 o1] l1 IH]; intros h d0 ND Hn Hf Hin Hc.
  - cbn [app for_each].
    destruct (Hn n o) as (ob & Eo & En); [left|].
    erewrite bind_raise; cycle 1.
    { eapply merge_step_conflict; try eassumption. now rewrite En. }
    rewrite En. f_equal. unfold with_conf. cbn.
    rewrite (left_id_L ∅ (∪)). rewrite insert_id by assumption.
    now destruct h.
  - cbn [app for_each]. cbn in ND.
    inversion ND as [|? ? Hnot ND']; subst.
    destruct (Hn n1 o1) as (ob & Eo & En); [left|].
    erewrite bind_ok; cycle 1.
    { apply merge_step_insert; try eassumption. right.
      rewrite En. apply Hf. cbn. left. }
    rewrite En.
    rewrite (IH (with_conf h c (<[n1:=o1]> d0)) (<[n1:=o1]> d0)).
    + rewrite with_conf_twice. f_equal. f_equal. cbn.
      rewrite <- insert_union_l. symmetry. apply insert_union_r.
      apply not_elem_of_list_to_map_1. intros Hx. apply Hnot.
      rewrite fmap_app. apply elem_of_app. now left.
    + exact ND'.
    + intros n' o' Hin'. cbn. apply Hn. now right.
    + intros n' Hin'. rewrite dom_insert.
      intros [E%elem_of_singleton|E]%elem_of_union.
      * subst. apply Hnot. rewrite fmap_app. apply elem_of_app. now left.
      * eapply Hf; [|exact E]. cbn. now right.
    + rewrite dom_insert. apply elem_of_union. now right.
    + apply with_conf_lookup.
Qed.
End merge_facts.

Section merge_results.
Import config.

Lemma new_conf_fresh h : h_configurations h !! new_conf h = None.
Proof. apply not_elem_of_dom. unfold new_conf. apply is_fresh. Qed.

Lemma names_agree_entries {order : DictOrder} h d n o :
  names_agree h d -> (n, o) ∈ iteritems d ->
  exists ob, h_options h !! o = Some ob /\ opt_long_name ob = n.
Proof.
  intros Hd Hin. apply elem_of_iteritems in Hin. specialize (Hd n o Hin).
  cbn in Hd. destruct (h_options h !! o) as [ob|]; [|discriminate].
  exists ob. split; [reflexivity|]. cbn in Hd. congruence.
Qed.

(** [DefaultConfiguration(d)] copies the dict [d] into a new one. *)
Lemma init_copies {order : DictOrder} h d :
  names_agree h d ->
  DefaultConfiguration__init__ (Some d) h
  = (with_conf h (new_conf h) d, Ok (new_conf h)).
Proof.
  intros Hd. unfold DefaultConfiguration__init__.
  erewrite bind_ok by reflexivity. fold (new_conf h).
  rewrite (bind_ok _ _ h (with_conf h (new_conf h) ∅) tt) by reflexivity.
  destruct (decide (d = ∅)) as [->|Hne].
  - rewrite bool_decide_eq_true_2 by reflexivity. reflexivity.
  - rewrite bool_decide_eq_false_2 by assumption.
    erewrite bind_ok; cycle 1.
    { apply init_loop with (d0 := ∅).
      - apply NoDup_fst_iteritems.
      - intros n o Hin. cbn. eapply names_agree_entries; eassumption.
      - intros n _. rewrite dom_empty. apply not_elem_of_empty.
      - apply with_conf_lookup. }
    unfold ret.
    rewrite with_conf_twice, list_to_map_iteritems, (right_id_L ∅ (∪)).
    reflexivity.
Qed.

(** A merge that nothing stops: the new configuration holds the
    entries of [other] over those of [self]. *)
Lemma merge_ok {order : DictOrder} h self other d_self d_other ao :
  h_configurations h !! self = Some d_self ->
  h_configurations h !! other = Some d_other ->
  names_agree h d_self -> names_agree h d_other ->
  ao = true \/ dom d_self ## dom d_other ->
  merge self other ao h
  = (with_conf h (new_conf h) (d_other ∪ d_self), Ok (new_conf h)).
Proof.
  intros Es Eo Hs Ho Hcase. rewrite merge_unfold.
  erewrite bind_ok; cycle 1.
  { unfold options, deref_configuration. rewrite Es. reflexivity. }
  erewrite bind_ok by (apply init_copies; assumption).
  assert (Eo' : h_configurations (with_conf h (new_conf h) d_self) !! other
                = Some d_other).
  { cbn. rewrite lookup_insert_ne; [assumption|].
    intros E. pose proof (new_conf_fresh h) as F. rewrite E in F. congruence. }
  erewrite bind_ok; cycle 1.
  { unfold options, deref_configuration. rewrite Eo'. reflexivity. }
  erewrite bind_ok; cycle 1.
  { apply merge_loop_ok with (d0 := d_self).
    - apply NoDup_fst_iteritems.
    - intros n o Hin. cbn. eapply names_agree_entries; eassumption.
    - destruct Hcase as [->|Hd]; [now left|right].
      intros n Hin Hin'. apply (Hd n); [assumption|].
      apply list_elem_of_fmap in Hin as ([n' o] & -> & Hin).
      apply elem_of_iteritems in Hin. apply elem_of_dom. now exists o.
    - apply with_conf_lookup. }
  rewrite with_conf_twice, list_to_map_iteritems. reflexivity.
Qed.

(** The first element of a list with a property splits the list. *)
Lemma first_such {A} (P : A -> Prop) `{forall x, Decision (P x)} (l : list A) :
  (exists x, x ∈ l /\ P x) ->
  exists l1 x l2, l = l1 ++ x :: l2 /\ P x /\ (forall y, y ∈ l1 -> ~ P y).
Proof.
  induction l as [|a l IH]; intros (x & Hin & Hx).
  - inversion Hin.
  - destruct (decide (P a)) as [Ha|Ha].
    + exists [], a, l. split; [reflexivity|]. split; [assumption|].
      intros y Hy. inversion Hy.
    + destruct IH as (l1 & x' & l2 & -> & Hx' & Hl1).
      { exists x. split; [|assumption].
        inversion Hin; subst; [contradiction|assumption]. }
      exists (a :: l1), x', l2. split; [reflexivity|]. split; [assumption|].
      intros y Hy. inversion Hy; subst; [assumption|]. now apply Hl1.
Qed.

(** A merge without override of two configurations that share a
    name: it stops at the first entry of [other], in the order of the
    iteration, whose name [self] has. *)
Lemma merge_conflict {order : DictOrder} h self other d_self d_other :
  h_configurations h !! self = Some d_self ->
  h_configurations h !! other = Some d_other ->
  names_agree h d_self -> names_agree h d_other ->
  (exists n, n ∈ dom d_self /\ n ∈ dom d_other) ->
  exists l1 n o l2,
    iteritems d_other = l1 ++ (n, o) :: l2 /\
    n ∈ dom d_self /\
    (forall n', n' ∈ l1.*1 -> n' ∉ dom d_self) /\
    merge self other false h
    = (with_conf h (new_conf h) (list_to_map l1 ∪ d_self),
       Raise (ConflictingMergeError n)).
Proof.
  intros Es Eo Hs Ho (n0 & Hn0s & Hn0o).
  destruct (first_such (fun e : string * loc => e.1 ∈ dom d_self)
              (iteritems d_other))
    as (l1 & [n o] & l2 & Hl & Hn & Hl1).
  { apply elem_of_dom in Hn0o as [o0 Ho0].
    exists (n0, o0). split; [now apply elem_of_iteritems|assumption]. }
  cbn in Hn.
  assert (Hl1' : forall n', n' ∈ l1.*1 -> n' ∉ dom d_self).
  { intros n' Hin. apply list_elem_of_fmap in Hin as ([n'' o'] & -> & Hin).
    apply (Hl1 _ Hin). }
  exists l1, n, o, l2. split; [assumption|]. split; [assumption|].
  split; [assumption|].
  rewrite merge_unfold.
  erewrite bind_ok; cycle 1.
  { unfold options, deref_configuration. rewrite Es. reflexivity. }
  erewrite bind_ok by (apply init_copies; assumption).
  assert (Eo' : h_configurations (with_conf h (new_conf h) d_self) !! other
                = Some d_other).
  { cbn. rewrite lookup_insert_ne; [assumption|].
    intros E. pose proof (new_conf_fresh h) as F. rewrite E in F. congruence. }
  erewrite bind_ok; cycle 1.
  { unfold options, deref_configuration. rewrite Eo'. reflexivity. }
  erewrite bind_raise; [reflexivity|].
  rewrite Hl.
  erewrite merge_loop_conflict with (d0 := d_self).
  - rewrite with_conf_twice. reflexivity.
  - rewrite <- Hl. apply NoDup_fst_iteritems.
  - intros n' o' Hin. cbn. eapply names_agree_entries; [exact Ho|].
    now rewrite Hl.
  - assumption.
  - assumption.
  - apply with_conf_lookup.
Qed.
End merge_results.

Section configuration_claims.
Import config.

Example demo_heap_built :
  fst (build_demo_heap (order := demo_order) empty_heap) = demo_heap.
Proof. vm_compute. reflexivity. Qed.

Lemma get_option_eq h c d n o :
  h_configurations h !! c = Some d -> d !! n = Some o ->
  get_option c n h = (h, Ok o).
Proof.
  intros Ec En. unfold get_option, bind, deref_configuration.
  now rewrite Ec, En.
Qed.

(** C1: two configurations that share a name.  Without override the
    merge raises ConflictingMergeError with the name of the first
    entry of [other], in the order of the iteration, that [self] has
    too; with override it returns a configuration in which every
    shared name maps to the option of [other]; and whenever the merge
    returns, the names of the result are those of both inputs. *)
Theorem merge_shared_names {order : DictOrder} h self other d_self d_other :
  h_configurations h !! self = Some d_self ->
  h_configurations h !! other = Some d_other ->
  names_agree h d_self -> names_agree h d_other ->
  (exists n, n ∈ dom d_self /\ n ∈ dom d_other) ->
  (exists h1 l1 n o l2,
      merge self other false h = (h1, Raise (ConflictingMergeError n)) /\
      iteritems d_other = l1 ++ (n, o) :: l2 /\
      n ∈ dom d_self /\
      (forall n', n' ∈ l1.*1 -> n' ∉ dom d_self)) /\
  (exists h2 r,
      merge self other true h = (h2, Ok r) /\
      (forall n o, n ∈ dom d_self -> d_other !! n = Some o ->
         get_option r n h2 = (h2, Ok o))) /\
  (forall ao h3 r n,
      merge self other ao h = (h3, Ok r) ->
      has_option r n h3
      = (h3, Ok (bool_decide (n ∈ dom d_self ∪ dom d_other)))).
Proof.
  intros Es Eo Hs Ho Hshared.
  destruct (merge_conflict h self other d_self d_other Es Eo Hs Ho Hshared)
    as (l1 & n & o & l2 & Hl & Hn & Hl1 & Hm).
  pose proof (merge_ok h self other d_self d_other true Es Eo Hs Ho
                (or_introl eq_refl)) as Hok.
  split; [|split].
  - eauto 10.
  - eexists _, _. split; [exact Hok|].
    intros n' o' _ Hn'. eapply get_option_eq; [apply with_conf_lookup|].
    apply lookup_union_Some_l. exact Hn'.
  - intros [|] h3 r n' Hr.
    + rewrite Hok in Hr. injection Hr as <- <-.
      erewrite has_option_eq by apply with_conf_lookup.
      do 2 f_equal. apply bool_decide_ext.
      rewrite dom_union, !elem_of_union. tauto.
    + rewrite Hm in Hr. discriminate.
Qed.

Lemma merge_shared_names_witness :
  (exists h1,
     merge (order := demo_order) 1%positive 1%positive false demo_heap
     = (h1, Raise (ConflictingMergeError "o2"))) /\
  (exists h2 r,
     merge (order := demo_order) 1%positive 2%positive true demo_heap
     = (h2, Ok r) /\
     get_option r "o2" h2 = (h2, Ok 3%positive)).
Proof.
  split.
  - destruct (merge_shared_names (order := demo_order) demo_heap
                1%positive 1%positive
                {[ "o1" := 1%positive; "o2" := 2%positive ]}
                {[ "o1" := 1%positive; "o2" := 2%positive ]})
      as ((h1 & l1 & n & o & l2 & Hm & Hl & _ & Hl1) & _).
    + vm_compute. reflexivity.
    + vm_compute. reflexivity.
    + apply (bool_decide_unpack _). vm_compute. reflexivity.
    + apply (bool_decide_unpack _). vm_compute. reflexivity.
    + exists "o2".
      split; apply (bool_decide_unpack _); vm_compute; reflexivity.
    + exists h1.
      assert (Hit : iteritems (DictOrder := demo_order)
                      {[ "o1" := 1%positive; "o2" := 2%positive ]}
                    = [("o2", 2%positive); ("o1", 1%positive)])
        by (vm_compute; reflexivity).
      rewrite Hit in Hl. destruct l1 as [|[k v] l1].
      * injection Hl as <- _ _. exact Hm.
      * exfalso. injection Hl as <- _ _. apply (Hl1 "o2"); [left|].
        apply (bool_decide_unpack _). vm_compute. reflexivity.
  - destruct (merge_shared_names (order := demo_order) demo_heap
                1%positive 2%positive
                {[ "o1" := 1%positive; "o2" := 2%positive ]}
                {[ "o2" := 3%positive ]})
      as (_ & (h2 & r & Hm & Hg) & _).
    + vm_compute. reflexivity.
    + vm_compute. reflexivity.
    + apply (bool_decide_unpack _). vm_compute. reflexivity.
    + apply (bool_decide_unpack _). vm_compute. reflexivity.
    + exists "o2".
      split; apply (bool_decide_unpack _); vm_compute; reflexivity.
    + exists h2, r. split; [exact Hm|]. apply Hg.
      * apply (bool_decide_unpack _). vm_compute. reflexivity.
      * vm_compute. reflexivity.
Defined.

(** C2: two configurations with no name in common.  With or without
    override the merge returns; the result has as many options as
    both inputs together; every option of either input is found in
    it under its name, the same instance, and the merge changes no
    option. *)
Theorem merge_disjoint_names {order : DictOrder}
    h self other d_self d_other ao :
  h_configurations h !! self = Some d_self ->
  h_configurations h !! other = Some d_other ->
  names_agree h d_self -> names_agree h d_other ->
  dom d_self ## dom d_other ->
  exists h' r dr,
    merge self other ao h = (h', Ok r) /\
    options r h' = (h', Ok dr) /\
    size dr = size d_self + size d_other /\
    (forall n o, d_self !! n = Some o \/ d_other !! n = Some o ->
       get_option r n h' = (h', Ok o)) /\
    h_options h' = h_options h.
Proof.
  intros Es Eo Hs Ho Hd.
  assert (Hdisj : d_other ##ₘ d_self).
  { apply map_disjoint_dom. symmetry. exact Hd. }
  exists (with_conf h (new_conf h) (d_other ∪ d_self)), (new_conf h),
         (d_other ∪ d_self).
  split; [apply merge_ok; auto|].
  split.
  { unfold options, deref_configuration. now rewrite with_conf_lookup. }
  split.
  { rewrite map_size_disj_union by assumption. lia. }
  split; [|reflexivity].
  intros n o Hn. eapply get_option_eq; [apply with_conf_lookup|].
  apply lookup_union_Some; [assumption|]. tauto.
Qed.

Lemma merge_disjoint_names_witness :
  exists h' r dr,
    merge (order := demo_order) 3%positive 2%positive false demo_heap
    = (h', Ok r) /\
    options r h' = (h', Ok dr) /\
    size dr = 2.
Proof.
  destruct (merge_disjoint_names (order := demo_order) demo_heap
              3%positive 2%positive
              {[ "o1" := 1%positive ]} {[ "o2" := 3%positive ]} false)
    as (h' & r & dr & Hm & Hr & Hsz & _).
  - vm_compute. reflexivity.
  - vm_compute. reflexivity.
  - apply (bool_decide_unpack _). vm_compute. reflexivity.
  - apply (bool_decide_unpack _). vm_compute. reflexivity.
  - apply (bool_decide_unpack _). vm_compute. reflexivity.
  - exists h', r, dr. split; [exact Hm|]. split; [exact Hr|].
    rewrite Hsz. vm_compute. reflexivity.
Defined.
End configuration_claims.

Section sharing_claims.
Import config.

(** C9, as the code has it: a merge allocates a new configuration
    and leaves every option and every configuration that was there
    as it was, whether it returns or raises; the options of the
    result are the very instances the inputs hold, not copies. *)
Theorem merge_keeps_inputs_and_shares_options {order : DictOrder}
    h self other d_self d_other ao h' r :
  h_configurations h !! self = Some d_self ->
  h_configurations h !! other = Some d_other ->
  names_agree h d_self -> names_agree h d_other ->
  merge self other ao h = (h', r) ->
  h_options h' = h_options h /\
  (forall c, c ∈ dom (h_configurations h) ->
     h_configurations h' !! c = h_configurations h !! c) /\
  (forall c, r = Ok c ->
     (c ∉ dom (h_configurations h)) /\
     forall n o, get_option c n h' = (h', Ok o) ->
       d_self !! n = Some o \/ d_other !! n = Some o).
Proof.
  intros Es Eo Hs Ho Hm.
  assert (Hshape : exists d,
    h' = with_conf h (new_conf h) d /\
    (forall c, r = Ok c -> c = new_conf h /\ d = d_other ∪ d_self)).
  { destruct (decide (dom d_self ∩ dom d_other = ∅)) as [Hd|Hd].
    - apply disjoint_intersection_L in Hd.
      rewrite (merge_ok h self other d_self d_other ao Es Eo Hs Ho
                 (or_intror Hd)) in Hm.
      injection Hm as <- <-. eexists. split; [reflexivity|].
      intros c [= <-]. auto.
    - destruct ao.
      + rewrite (merge_ok h self other d_self d_other true Es Eo Hs Ho
                   (or_introl eq_refl)) in Hm.
        injection Hm as <- <-. eexists. split; [reflexivity|].
        intros c [= <-]. auto.
      + destruct (merge_conflict h self other d_self d_other Es Eo Hs Ho)
          as (l1 & n & o & l2 & _ & _ & _ & Hc).
        { destruct (set_choose_L (dom d_self ∩ dom d_other)) as [n Hn].
          - exact Hd.
          - exists n. now apply elem_of_intersection in Hn. }
        rewrite Hc in Hm. injection Hm as <- <-.
        eexists. split; [reflexivity|]. intros c [=]. }
  destruct Hshape as (d & -> & Hr).
  split; [reflexivity|]. split.
  - intros c Hc. cbn. apply lookup_insert_ne. intros <-.
    apply elem_of_dom in Hc as [x Hx]. rewrite new_conf_fresh in Hx.
    discriminate.
  - intros c Hc. destruct (Hr c Hc) as [-> ->]. split.
    + apply not_elem_of_dom, new_conf_fresh.
    + intros n o Hg. unfold get_option, bind, deref_configuration in Hg.
      rewrite with_conf_lookup in Hg.
      destruct ((d_other ∪ d_self) !! n) as [o'|] eqn:E; [|discriminate].
      injection Hg as ->. apply lookup_union_Some_raw in E. tauto.
Qed.

Lemma merge_keeps_inputs_and_shares_options_witness :
  h_options
    (fst (merge (order := demo_order) 3%positive 2%positive false demo_heap))
  = h_options demo_heap.
Proof.
  refine (proj1 (merge_keeps_inputs_and_shares_options (order := demo_order)
            demo_heap 3%positive 2%positive
            {[ "o1" := 1%positive ]} {[ "o2" := 3%positive ]} false
            _ _ _ _ _ _ (surjective_pairing _))).
  - vm_compute. reflexivity.
  - vm_compute. reflexivity.
  - apply (bool_decide_unpack _). vm_compute. reflexivity.
  - apply (bool_decide_unpack _). vm_compute. reflexivity.
Defined.

(** C9, as the specification has it, fails: after the merge of the
    configuration holding o1 with the one holding o2, setting o1 as
    found in the result changes what a read of o1 as found in the
    first input gives. *)
Lemma merge_shares_options :
  ~ merge_isolates (order := demo_order) demo_heap 3%positive 2%positive false.
Proof.
  intros Hiso.
  pose (h1 := fst (merge (order := demo_order) 3%positive 2%positive false
                     demo_heap)).
  pose (h2 := fst (set 1%positive (PyStr "value") h1)).
  specialize (Hiso h1 4%positive "o1" 1%positive (PyStr "value") h2
                3%positive "o1" 1%positive).
  assert (E : snd (get 1%positive h2) = snd (get 1%positive h1)).
  { apply Hiso.
    - vm_compute. reflexivity.
    - vm_compute. reflexivity.
    - vm_compute. reflexivity.
    - now left.
    - vm_compute. reflexivity. }
  vm_compute in E. discriminate E.
Qed.
End sharing_claims.

Section option_claims.
Import config.

Lemma get_required_unset h l o comment :
  h_options h !! l = Some o -> opt_set o = false ->
  get_required l comment h
  = (h, Raise (RequiredOptionMissingError
                 (bound_method_text (opt_class o) "name" l) comment)).
Proof.
  intros El Hs. unfold get_required, __unicode__, bind, deref_option.
  rewrite El, Hs. cbn. rewrite El. reflexivity.
Qed.

Lemma get_required_set h l o comment :
  h_options h !! l = Some o -> opt_set o = true ->
  get_required l comment h = get l h.
Proof.
  intros El Hs. unfold get_required, bind, deref_option.
  rewrite El, Hs. reflexivity.
Qed.

Lemma get_after_set h h' l v :
  set l v h = (h', Ok l) -> get l h' = (h', Ok v).
Proof.
  unfold set, bind. destruct (_validate l v h) as [h1 [[]|e]]; [|discriminate].
  unfold deref_option. destruct (h_options h1 !! l) as [o|]; [|discriminate].
  cbn. intros [= <-]. unfold get, bind, deref_option. cbn.
  rewrite lookup_insert_eq. reflexivity.
Qed.

(** What the two checks of [_validate] come to on an option of the
    store. *)
Lemma assertType_eq h l o v :
  h_options h !! l = Some o ->
  _assertType l isinstance_int v h
  = (h, if isinstance_int v then Ok tt
        else match v with
             | PyStr s => if is_ascii s then Raise BadOptionValueType
                          else Raise UnicodeDecodeError
             | _ => Raise BadOptionValueType
             end).
Proof.
  intros El. unfold _assertType.
  destruct (isinstance_int v); [reflexivity|].
  unfold __unicode__. unfold bind. unfold deref_option. rewrite El.
  destruct v; try reflexivity. cbn. destruct (is_ascii s); reflexivity.
Qed.

Lemma assertString_eq h l o v :
  h_options h !! l = Some o ->
  _assertString l v h
  = (h, match v with
        | PyStr _ | PyUnicode _ => Ok tt
        | _ => Raise BadOptionValueType
        end).
Proof.
  intros El. unfold _assertString, __unicode__.
  destruct v; try reflexivity; unfold bind; unfold deref_option;
    rewrite El; reflexivity.
Qed.

Lemma validate_keeps_store l v h : fst (_validate l v h) = h.
Proof.
  unfold _validate. unfold bind at 1. unfold deref_option at 1.
  destruct (h_options h !! l) as [o|] eqn:El; [|reflexivity].
  destruct (opt_class o); cbn; try reflexivity.
  - now rewrite (assertString_eq h l o v El).
  - now rewrite (assertType_eq h l o v El).
Qed.

Lemma set_raise_keeps_store l v h h' e :
  set l v h = (h', Raise e) -> h' = h.
Proof.
  unfold set, bind. pose proof (validate_keeps_store l v h) as Hv.
  destruct (_validate l v h) as [h1 [[]|e']]; cbn in Hv; subst.
  - unfold deref_option, store_option, ret.
    destruct (h_options h !! l); cbn; intros [=]; congruence.
  - congruence.
Qed.

(** C6 at [StringOption('testname').get_required()]: the option is
    named testname, and the exception raised carries the text of the
    bound method [name], not the name.  It is so for every option that
    was just constructed, of any class and at any place of the store;
    and once an option is set, [get_required] is [get]. *)
Theorem get_required_carries_method_text :
  (exists h o,
     new_option StringOption "testname" [] [] empty_heap = (h, Ok o) /\
     name o h = (h, Ok "testname") /\
     get_required o PyNone h
     = (h, Raise (RequiredOptionMissingError
          "<bound method StringOption.name of <shastity.config.StringOption instance at 0x1>>"
          PyNone))) /\
  (forall cls long_name short_name comment h,
     exists h1 o,
       AbstractOption__init__ cls long_name short_name h = (h1, Ok o) /\
       name o h1 = (h1, Ok long_name) /\
       get_required o comment h1
       = (h1, Raise (RequiredOptionMissingError
                       (bound_method_text cls "name" o) comment))) /\
  (forall h l comment,
     match h_options h !! l with
     | Some o => if opt_set o then get_required l comment h = get l h
                 else True
     | None => True
     end).
Proof.
  split; [|split].
  - eexists _, _. split; [vm_compute; reflexivity|].
    split; vm_compute; reflexivity.
  - intros cls long_name short_name comment h.
    exists {| h_options :=
                <[fresh (dom (h_options h)) :=
                    {| opt_class := cls; opt_long_name := long_name;
                       opt_short_name := short_name; opt_set := false;
                       opt_value := None |}]> (h_options h);
              h_configurations := h_configurations h |},
           (fresh (dom (h_options h))).
    split; [reflexivity|].
    split.
    + apply (name_eq _ _ {| opt_class := cls; opt_long_name := long_name;
                            opt_short_name := short_name; opt_set := false;
                            opt_value := None |}).
      cbn. apply lookup_insert_eq.
    + apply (get_required_unset _ _
               {| opt_class := cls; opt_long_name := long_name;
                  opt_short_name := short_name; opt_set := false;
                  opt_value := None |}); [|reflexivity].
      cbn. apply lookup_insert_eq.
  - intros h l comment. destruct (h_options h !! l) as [o|] eqn:El; [|exact I].
    destruct (opt_set o) eqn:Hs; [|exact I].
    eapply get_required_set; eassumption.
Qed.

(** C7 at [config.BoolOption("x").parse("True")]: there is no boolean
    option to parse with.  config.py binds neither BoolOption nor
    OptionParseError, so reading [config.BoolOption] raises
    AttributeError before an option is constructed or a string is
    parsed, whatever would have been done with the class, and the
    store is left as it was; the classes the module does bind are
    found. *)
Theorem BoolOption_is_not_defined :
  module_getattr globals "BoolOption" = Raise (AttributeError "BoolOption") /\
  module_getattr globals "OptionParseError"
  = Raise (AttributeError "OptionParseError") /\
  module_getattr globals "StringOption" = Ok tt /\
  module_getattr globals "IntOption" = Ok tt /\
  (forall (A : Type) (k : unit -> Py heap A) (h : heap),
     (do cls <- lift (module_getattr globals "BoolOption"); k cls) h
     = (h, Raise (AttributeError "BoolOption"))).
Proof.
  assert (E : module_getattr globals "BoolOption"
              = Raise (AttributeError "BoolOption"))
    by (vm_compute; reflexivity).
  split; [exact E|]. split; [vm_compute; reflexivity|].
  split; [vm_compute; reflexivity|]. split; [vm_compute; reflexivity|].
  intros A k h. unfold bind, lift. rewrite E. reflexivity.
Qed.

Lemma parse_keeps_store l v h : fst (_parse l v h) = h.
Proof.
  unfold _parse, bind, deref_option.
  destruct (h_options h !! l) as [o|]; [|reflexivity].
  destruct (opt_class o); reflexivity.
Qed.

(** C8 at [StringOption('testname', default='test').get()], which
    the test of the default expects to be 'test': the constructor
    takes no default and the call raises TypeError; and [get] on an
    option that was never set raises AttributeError.  What does hold:
    after a [set] or a [parse] that returns, [get] gives the value
    that was set, and one that raises leaves the store as it was. *)
Theorem default_is_not_supported :
  (do o <- new_option StringOption "testname" [] [("default", PyStr "test")];
   get o) empty_heap
  = (empty_heap,
     Raise (TypeError
       "__init__() got an unexpected keyword argument 'default'")) /\
  snd ((do o <- new_option StringOption "testname" [] []; get o) empty_heap)
  = Raise (AttributeError "_AbstractOption__value") /\
  (forall l v h,
     match set l v h with
     | (h', Ok _) => get l h' = (h', Ok v)
     | (h', Raise _) => h' = h
     end) /\
  (forall l s h,
     match parse l s h with
     | (h', Ok _) => exists v, snd (_parse l s h) = Ok v /\
                               get l h' = (h', Ok v)
     | (h', Raise _) => h' = h
     end).
Proof.
  split; [vm_compute; reflexivity|]. split; [vm_compute; reflexivity|].
  assert (Hset : forall l v h,
    match set l v h with
    | (h', Ok l') => l' = l /\ get l h' = (h', Ok v)
    | (h', Raise _) => h' = h
    end).
  { intros l v h. destruct (set l v h) as [h' [l'|e]] eqn:E.
    - assert (l' = l) as ->.
      { revert E. unfold set, bind.
        destruct (_validate l v h) as [h1 [[]|e]]; [|discriminate].
        unfold deref_option. destruct (h_options h1 !! l); [|discriminate].
        cbn. intros [= _ <-]. reflexivity. }
      split; [reflexivity|]. eapply get_after_set. exact E.
    - eapply set_raise_keeps_store. exact E. }
  split.
  - intros l v h. specialize (Hset l v h).
    destruct (set l v h) as [h' [l'|e]]; [apply Hset|exact Hset].
  - intros l s h. unfold parse. unfold bind at 1.
    pose proof (parse_keeps_store l s h) as Hp.
    destruct (_parse l s h) as [h1 [v|e]]; cbn in Hp; subst h1; [|reflexivity].
    unfold bind. specialize (Hset l v h).
    destruct (set l v h) as [h' [l'|e]]; [|exact Hset].
    cbn. exists v. split; [reflexivity|apply Hset].
Qed.
End option_claims.

Section temporary_directory_claims.
Import filesystem.
Context {W : Type} `{FileSystem W}.

Lemma step_stale (op : td_op) (s : handle W) :
  td_stale (fst s) = true -> step op s = s.
Proof.
  destruct s as [self w]. cbn. intros Hs.
  destruct op; cbn; unfold close, __get_fs, __get_path; rewrite ?Hs;
    reflexivity.
Qed.

Lemma run_stale (ops : list td_op) (s : handle W) :
  td_stale (fst s) = true -> run ops s = s.
Proof.
  intros Hs. unfold run. induction ops as [|op ops IH]; [reflexivity|].
  cbn. rewrite step_stale by assumption. exact IH.
Qed.

Lemma step_not_closing (op : td_op) (s : handle W) :
  is_closing op = false -> step op s = s.
Proof.
  destruct s as [self w].
  destruct op; cbn; try discriminate; intros _;
    unfold __get_fs, __get_path; destruct (td_stale self); reflexivity.
Qed.

Lemma close_stale (s : handle W) :
  td_stale (fst s) = true -> close s = (s, Ok tt).
Proof. destruct s as [self w]. cbn. intros Hs. unfold close. now rewrite Hs. Qed.

Lemma close_marks_stale (s : handle W) :
  td_stale (fst (fst (close s))) = true /\
  td_path (fst (fst (close s))) = td_path (fst s).
Proof.
  destruct s as [self w]. unfold close.
  destruct (td_stale self) eqn:Hs; cbn.
  - now rewrite Hs.
  - destruct (rmtree (td_path self) w). cbn. auto.
Qed.
End temporary_directory_claims.

Section traced_temporary_directory.
Import filesystem.
Context {W : Type} `{FileSystem W}.

Lemma step_closing (op : td_op) (s : handle (traced W)) :
  is_closing op = true -> td_stale (fst s) = false ->
  td_stale (fst (step op s)) = true /\
  td_path (fst (step op s)) = td_path (fst s) /\
  calls (snd (step op s)) = calls (snd s) ++ [CallRmtree (td_path (fst s))].
Proof.
  destruct s as [self w]. cbn [fst snd]. intros Hop Hs.
  assert (E : step op (self, w) = fst (close (self, w)))
    by (destruct op; try discriminate; reflexivity).
  rewrite E. unfold close. rewrite Hs. cbn [negb].
  cbn [rmtree Traced]. unfold logged.
  destruct (rmtree (td_path self) (inner w)). cbn. auto.
Qed.

Lemma run_calls : forall (ops : list td_op) (s : handle (traced W)),
  td_stale (fst s) = false ->
  td_stale (fst (run ops s)) = existsb is_closing ops /\
  td_path (fst (run ops s)) = td_path (fst s) /\
  calls (snd (run ops s))
  = calls (snd s)
    ++ (if existsb is_closing ops then [CallRmtree (td_path (fst s))] else []).
Proof.
  induction ops as [|op ops IH]; intros s Hs.
  - cbn. rewrite app_nil_r. auto.
  - change (run (op :: ops) s) with (run ops (step op s)). cbn [existsb].
    destruct (is_closing op) eqn:Hop.
    + destruct (step_closing op s Hop Hs) as (Hst & Hp & Hc).
      rewrite run_stale by assumption. cbn [orb]. auto.
    + rewrite step_not_closing by assumption. cbn [orb]. now apply IH.
Qed.
End traced_temporary_directory.

Section temporary_directory_theorems.
Import filesystem.

(** C3: over any life of a handle, [rmtree] is invoked on the path of
    the handle once if the handle is ever closed or its scope left,
    and never otherwise; leaving a [with] block, by its end or by an
    exception, invokes it once; closing makes the handle stale; on a
    stale handle [close] returns without doing anything, reads of
    [path] and [fs] raise StaleTemporaryDirectory, and nothing makes
    the handle fresh again. *)
Theorem temporary_directory_removes_once {W} `{FileSystem W}
    (fs : loc) (path : string) (w : W) :
  (forall ops,
     calls (snd (run ops (new_handle fs path w)))
     = (if existsb is_closing ops then [CallRmtree path] else []) /\
     td_stale (fst (run ops (new_handle fs path w)))
     = existsb is_closing ops) /\
  (forall A ops (r : result A),
     calls (snd (fst (with_ (fun s => (run ops s, r))
                            (new_handle fs path w))))
     = [CallRmtree path]) /\
  (forall s : handle (traced W),
     td_stale (fst (fst (close s))) = true) /\
  (forall s : handle (traced W),
     td_stale (fst s) = true ->
     close s = (s, Ok tt) /\
     __get_path s = (s, Raise (StaleTemporaryDirectory (td_path (fst s)))) /\
     __get_fs s = (s, Raise (StaleTemporaryDirectory (td_path (fst s)))) /\
     forall ops, run ops s = s).
Proof.
  split; [|split; [|split]].
  - intros ops.
    destruct (run_calls ops (new_handle fs path w) eq_refl) as (Hs & _ & Hc).
    split; [exact Hc | exact Hs].
  - intros A ops r. unfold with_. cbn [__enter__ ret].
    destruct (run_calls ops (new_handle fs path w) eq_refl) as (Hs & Hp & Hc).
    cbn [new_handle TemporaryDirectory__init__ fst snd td_path calls] in Hp, Hc.
    set (s2 := run ops (new_handle fs path w)) in *.
    unfold __exit__.
    destruct (existsb is_closing ops) eqn:Hcl.
    + rewrite (close_stale s2 Hs). cbn. exact Hc.
    + destruct (step_closing OpClose s2 eq_refl Hs) as (_ & _ & Hc').
      cbn [step] in Hc'. rewrite Hc, Hp in Hc'. cbn in Hc'.
      destruct (close s2) as [s3 [[]|e]]; exact Hc'.
  - intros s. apply close_marks_stale.
  - intros [self w'] Hs. cbn [fst] in Hs. cbn [fst].
    split; [now apply close_stale|].
    unfold __get_path, __get_fs. rewrite Hs.
    repeat split. intros ops. now apply run_stale.
Qed.

Lemma temporary_directory_removes_once_witness :
  let s : handle (traced (memory_world (gset string))) :=
    fst (close (new_handle 1%positive "/tmp/x" fresh_memory_fs)) in
  close s = (s, Ok tt) /\
  snd (__get_path s) = Raise (StaleTemporaryDirectory "/tmp/x").
Proof.
  intros s.
  destruct (temporary_directory_removes_once 1%positive "/tmp/x"
              fresh_memory_fs) as (_ & _ & _ & Hstale).
  destruct (Hstale s) as (Hc & Hp & _).
  - reflexivity.
  - split; [exact Hc|]. rewrite Hp. reflexivity.
Defined.

(** C10: when [rmtree] raises during [close], the exception goes to
    the caller and the handle is stale all the same: reads of [path]
    and [fs] raise StaleTemporaryDirectory, and a second [close]
    returns without a further call of [rmtree]. *)
Theorem close_is_stale_when_rmtree_raises {W} `{FileSystem W}
    (self : TemporaryDirectory) (w w' : traced W) (e : exn) :
  td_stale self = false ->
  rmtree (td_path self) w = (w', Raise e) ->
  exists self',
    close (self, w) = ((self', w'), Raise e) /\
    td_stale self' = true /\
    calls w' = calls w ++ [CallRmtree (td_path self)] /\
    __get_path (self', w')
    = ((self', w'), Raise (StaleTemporaryDirectory (td_path self))) /\
    __get_fs (self', w')
    = ((self', w'), Raise (StaleTemporaryDirectory (td_path self))) /\
    close (self', w') = ((self', w'), Ok tt).
Proof.
  intros Hs Hr.
  exists {| td_fs := td_fs self; td_path := td_path self; td_stale := true |}.
  split.
  { unfold close. rewrite Hs. cbn [negb]. rewrite Hr. reflexivity. }
  split; [reflexivity|]. split.
  { cbn [rmtree Traced] in Hr. unfold logged in Hr.
    destruct (rmtree (td_path self) (inner w)). injection Hr as <- _.
    reflexivity. }
  repeat split.
Qed.

Lemma close_is_stale_when_rmtree_raises_witness :
  exists self' w',
    close (new_handle 1%positive "/tmp/x" fresh_memory_fs)
    = ((self', w'), Raise NotImplementedError) /\
    td_stale self' = true /\
    close (self', w') = ((self', w'), Ok tt).
Proof.
  destruct (close_is_stale_when_rmtree_raises
              (TemporaryDirectory__init__ 1%positive "/tmp/x")
              {| inner := fresh_memory_fs; calls := [] |}
              {| inner := fresh_memory_fs; calls := [CallRmtree "/tmp/x"] |}
              NotImplementedError)
    as (self' & Hc & Hs & _ & _ & _ & Hc2).
  - reflexivity.
  - reflexivity.
  - exists self', {| inner := fresh_memory_fs; calls := [CallRmtree "/tmp/x"] |}.
    split; [exact Hc|]. split; [exact Hs | exact Hc2].
Defined.
End temporary_directory_theorems.

Section memory_file_system_theorems.
Import filesystem.

(** What [rec] can do: it raises NameError for the name errno, or it
    returns; and when it is given a component to walk it returns
    None. *)
Lemma rec_outcome {S} : forall (comps : list string) (here : list string)
    (cur : node) (s : S),
  fst (rec here cur comps s) = s /\
  (snd (rec here cur comps s) = Raise (NameError "errno") \/
   (comps = [] /\ snd (rec here cur comps s) = Ok (LNode here cur)) \/
   (comps <> [] /\ snd (rec here cur comps s) = Ok LNone)).
Proof.
  induction comps as [|c comps IH]; intros here cur s.
  - cbn. auto.
  - cbn [rec]. destruct cur as [es| |]; [|cbn; auto..].
    destruct (entry c es) as [child|]; [|cbn; auto].
    unfold bind.
    destruct (IH (here ++ [c]) child s) as (Hs & Hr).
    destruct (rec (here ++ [c]) child comps s) as [s' [v|e]];
      cbn in Hs, Hr; subst s'.
    + cbn. split; [reflexivity|]. right. right. split; [discriminate|reflexivity].
    + cbn. split; [reflexivity|]. left.
      destruct Hr as [Hr|[[_ Hr]|[_ Hr]]]; congruence.
Qed.

Lemma split_slash_nonempty (s : string) : split_slash s <> [].
Proof.
  induction s as [|c s IH]; cbn; [discriminate|].
  destruct (Ascii.eqb c "/"); [discriminate|].
  destruct (split_slash s); [contradiction|discriminate].
Qed.

Lemma split_outcome {S} (path : string) (s : S) :
  __split_slash_agnostically path s = (s, Raise AssertionError) \/
  exists dn, __split_slash_agnostically path s = (s, Ok dn).
Proof.
  unfold __split_slash_agnostically.
  destruct (os_path_split path) as [d0 f0].
  destruct (if negb (nonempty f0) then os_path_split d0 else (d0, f0))
    as [directory file].
  destruct (nonempty directory), (nonempty file); cbn; eauto.
Qed.

Lemma lookup_outcome {OS} (path : string) (w : memory_world OS) :
  __lookup path w = (w, Raise (NameError "errno")) \/
  __lookup path w = (w, Ok LNone).
Proof.
  unfold __lookup. rewrite (bind_ok _ _ w w w) by reflexivity.
  destruct (rec_outcome (split_slash path) [] (mw_tree w) w) as (Hs & Hr).
  destruct (rec [] (mw_tree w) (split_slash path) w) as [w1 r].
  cbn in Hs, Hr. subst w1.
  destruct Hr as [->|[[Hn _]|[_ ->]]]; auto.
  now apply split_slash_nonempty in Hn.
Qed.

(** [MemoryFileSystem.mkdir] never returns and never raises OSError:
    whatever the tree and the path, it leaves the world as it was and
    raises AssertionError, NameError or TypeError. *)
Lemma mkdir_always_raises {OS} (path : string) (w : memory_world OS) :
  MemoryFileSystem_mkdir path w = (w, Raise AssertionError) \/
  MemoryFileSystem_mkdir path w = (w, Raise (NameError "errno")) \/
  MemoryFileSystem_mkdir path w
  = (w, Raise (TypeError "argument of type 'NoneType' is not iterable")).
Proof.
  unfold MemoryFileSystem_mkdir.
  destruct (split_outcome path w) as [E|[[directory newdir] E]].
  - left. now apply bind_raise.
  - right. rewrite (bind_ok _ _ _ _ _ E).
    destruct (lookup_outcome path w) as [L|L].
    + left. now apply bind_raise.
    + right. now rewrite (bind_ok _ _ _ _ _ L).
Qed.

(** C4 at a new MemoryFileSystem: [mkdir("tmp/foo")] does not create
    the directory; it raises NameError for the name errno and leaves
    the tree as it was, so a second [mkdir("tmp/foo")] does the same
    and does not raise OSError with EEXIST.  On no tree and for no
    path does [mkdir] return or raise OSError. *)
Theorem mkdir_tmp_foo_raises_NameError :
  mkdir "tmp/foo" fresh_memory_fs
  = (fresh_memory_fs, Raise (NameError "errno")) /\
  (mkdir "tmp/foo" ;; mkdir "tmp/foo") fresh_memory_fs
  = (fresh_memory_fs, Raise (NameError "errno")) /\
  (forall (path : string) (w : memory_world (gset string)),
     mkdir path w = (w, Raise AssertionError) \/
     mkdir path w = (w, Raise (NameError "errno")) \/
     mkdir path w
     = (w, Raise (TypeError "argument of type 'NoneType' is not iterable"))).
Proof.
  split; [reflexivity|]. split; [reflexivity|].
  intros path w. apply mkdir_always_raises.
Qed.

(** [MemoryFileSystem.exists] is [os.path.exists]: the tree of the
    instance is not looked at. *)
Lemma exists_is_os_path_exists {OS} `{OperatingSystem OS} (path : string)
    (w : memory_world OS) :
  exists_ path w = (w, Ok (os_path_exists path (mw_os w))).
Proof. reflexivity. Qed.

(** C5 at two processes with the same tree, in one of which the
    operating system has /etc: [exists("/etc")] differs between them,
    and [exists("tmp")] is False although the tree has tmp.  Whatever
    the tree, [exists] gives what the operating system says. *)
Theorem memory_exists_asks_the_operating_system :
  let w1 : memory_world (gset string) := MemoryFileSystem__init__ ∅ in
  let w2 : memory_world (gset string) := MemoryFileSystem__init__ {[ "/etc" ]} in
  mw_tree w1 = mw_tree w2 /\
  snd (exists_ "/etc" w1) = Ok false /\
  snd (exists_ "/etc" w2) = Ok true /\
  entry "tmp" [("tmp", Dir [])] = Some (Dir []) /\
  snd (exists_ "tmp" w1) = Ok false /\
  (forall (os : gset string) (t1 t2 : node) (path : string),
     snd (exists_ path {| mw_os := os; mw_tree := t1 |})
     = snd (exists_ path {| mw_os := os; mw_tree := t2 |}) /\
     snd (exists_ path {| mw_os := os; mw_tree := t1 |})
     = Ok (os_path_exists path os)).
Proof.
  cbv zeta.
  split; [reflexivity|]. split; [vm_compute; reflexivity|].
  split; [vm_compute; reflexivity|]. split; [reflexivity|].
  split; [vm_compute; reflexivity|].
  intros os t1 t2 path. rewrite !exists_is_os_path_exists. split; reflexivity.
Qed.
End memory_file_system_theorems.

(** ** More about options and configurations *)
Section configuration_operations.
Import config.


Lemma get_option_missing h c d n :
  h_configurations h !! c = Some d -> d !! n = None ->
  get_option c n h = (h, Raise (KeyError n)).
Proof.
  intros Ec En. unfold get_option, bind, deref_configuration.
  now rewrite Ec, En.
Qed.

Lemma remove_option_missing h c d n :
  h_configurations h !! c = Some d -> d !! n = None ->
  remove_option c n h = (h, Raise (KeyError n)).
Proof.
  intros Ec En. unfold remove_option, bind, deref_configuration.
  now rewrite Ec, En.
Qed.

(** X1: adding an option to a configuration that already has one of
    that name does not raise the duplicate-option error the code
    names: the exception class is bound nowhere, so the call raises
    NameError; the configuration is left as it was. *)
Theorem add_option_duplicate_raises_NameError h c d l o :
  h_configurations h !! c = Some d ->
  h_options h !! l = Some o ->
  opt_long_name o ∈ dom d ->
  add_option c l h = (h, Raise (NameError "DuplicateOptionError")).
Proof.
  intros Ec El Hin. unfold add_option.
  rewrite (bind_ok _ _ _ _ _ (name_eq _ _ _ El)).
  unfold bind, deref_configuration. rewrite Ec.
  rewrite bool_decide_eq_true_2 by assumption. reflexivity.
Qed.

Lemma add_option_duplicate_raises_NameError_witness :
  add_option 1%positive 3%positive demo_heap
  = (demo_heap, Raise (NameError "DuplicateOptionError")).
Proof.
  apply (add_option_duplicate_raises_NameError demo_heap 1%positive
           {[ "o1" := 1%positive; "o2" := 2%positive ]} 3%positive
           (unset_option "o2" (PyStr "o"))).
  - vm_compute. reflexivity.
  - vm_compute. reflexivity.
  - apply (bool_decide_unpack _). vm_compute. reflexivity.
Defined.



(** X3: after an option was removed, its name is gone: [has_option]
    is false, [get_option] raises KeyError with the name, and a second
    [remove_option] raises KeyError with the name and changes
    nothing. *)
Theorem remove_option_twice_raises_KeyError h c d n :
  h_configurations h !! c = Some d ->
  n ∈ dom d ->
  exists h1,
    remove_option c n h = (h1, Ok tt) /\
    has_option c n h1 = (h1, Ok false) /\
    get_option c n h1 = (h1, Raise (KeyError n)) /\
    remove_option c n h1 = (h1, Raise (KeyError n)).
Proof.
  intros Ec Hin. exists (with_conf h c (delete n d)).
  split; [now apply remove_option_present|].
  assert (Ec1 : h_configurations (with_conf h c (delete n d)) !! c
                = Some (delete n d)) by apply with_conf_lookup.
  split.
  { rewrite (has_option_eq _ _ _ _ Ec1). do 2 f_equal.
    apply bool_decide_eq_false_2. rewrite dom_delete.
    intros [_ Hx]%elem_of_difference. apply Hx. now apply elem_of_singleton. }
  split.
  - apply (get_option_missing _ _ _ _ Ec1). apply lookup_delete_eq.
  - apply (remove_option_missing _ _ _ _ Ec1). apply lookup_delete_eq.
Qed.

Lemma remove_option_twice_raises_KeyError_witness :
  exists h1,
    remove_option 1%positive "o2" demo_heap = (h1, Ok tt) /\
    remove_option 1%positive "o2" h1 = (h1, Raise (KeyError "o2")).
Proof.
  destruct (remove_option_twice_raises_KeyError demo_heap 1%positive
              {[ "o1" := 1%positive; "o2" := 2%positive ]} "o2")
    as (h1 & Hr & _ & _ & Hr2).
  - vm_compute. reflexivity.
  - apply (bool_decide_unpack _). vm_compute. reflexivity.
  - exists h1. split; assumption.
Defined.

End configuration_operations.

Section configuration_constructor.
Import config.

Lemma for_each_app {S A} (l1 l2 : list A) (body : A -> Py S unit) (s : S) :
  for_each (l1 ++ l2) body s
  = bind (for_each l1 body) (fun _ => for_each l2 body) s.
Proof.
  revert s. induction l1 as [|x l1 IH]; intros s; [reflexivity|].
  cbn [app for_each]. unfold bind.
  destruct (body x s) as [s1 [[]|e]]; [|reflexivity].
  rewrite IH. reflexivity.
Qed.

Lemma names_agree_empty h : names_agree h ∅.
Proof. apply map_Forall_empty. Qed.

(** X4: [DefaultConfiguration(d)] for a dict whose keys are the names
    of its options returns a configuration that was not there before,
    whose options are those of [d], the same instances; it changes no
    option and no configuration that was there; and without a dict it
    does what it does with an empty one. *)
Theorem DefaultConfiguration_copies_the_dict {order : DictOrder} h d :
  names_agree h d ->
  exists h1 r,
    DefaultConfiguration__init__ (Some d) h = (h1, Ok r) /\
    (r ∉ dom (h_configurations h)) /\
    options r h1 = (h1, Ok d) /\
    h_options h1 = h_options h /\
    (forall c, c ∈ dom (h_configurations h) ->
       h_configurations h1 !! c = h_configurations h !! c) /\
    DefaultConfiguration__init__ None h
    = DefaultConfiguration__init__ (Some ∅) h.
Proof.
  intros Hd. exists (with_conf h (new_conf h) d), (new_conf h).
  split; [now apply init_copies|].
  split; [apply not_elem_of_dom, new_conf_fresh|].
  split.
  { unfold options, deref_configuration. now rewrite with_conf_lookup. }
  split; [reflexivity|]. split; [|reflexivity].
  intros c Hc. cbn. apply lookup_insert_ne. intros <-.
  apply elem_of_dom in Hc as [x Hx]. rewrite new_conf_fresh in Hx.
  discriminate.
Qed.

Lemma DefaultConfiguration_copies_the_dict_witness :
  exists h1 r,
    DefaultConfiguration__init__ (order := demo_order)
      (Some {[ "o2" := 3%positive ]}) demo_heap
    = (h1, Ok r) /\
    options r h1 = (h1, Ok {[ "o2" := 3%positive ]}).
Proof.
  destruct (DefaultConfiguration_copies_the_dict (order := demo_order)
              demo_heap {[ "o2" := 3%positive ]})
    as (h1 & r & Hi & _ & Ho & _).
  - apply (bool_decide_unpack _). vm_compute. reflexivity.
  - exists h1, r. split; assumption.
Defined.

(** X5: [DefaultConfiguration(d)] for a dict in which some key is not
    the name of the option it maps to raises AssertionError; no option
    and no configuration that was there is changed. *)
Theorem DefaultConfiguration_asserts_names {order : DictOrder} h d :
  (forall k l, d !! k = Some l -> is_Some (h_options h !! l)) ->
  ~ names_agree h d ->
  exists h1,
    DefaultConfiguration__init__ (Some d) h = (h1, Raise AssertionError) /\
    h_options h1 = h_options h /\
    (forall c, c ∈ dom (h_configurations h) ->
       h_configurations h1 !! c = h_configurations h !! c).
Proof.
  intros Hval Hbad.
  assert (Hne : d <> ∅).
  { intros ->. apply Hbad, names_agree_empty. }
  destruct (first_such
              (fun e : string * loc =>
                 opt_long_name <$> h_options h !! e.2 <> Some e.1)
              (iteritems d)) as (l1 & [k l] & l2 & Hl & Hk & Hl1).
  { apply map_not_Forall in Hbad as (k & l & Hkl & Hp); [|apply _].
    exists (k, l). split; [now apply elem_of_iteritems|exact Hp]. }
  cbn [fst snd] in Hk.
  assert (Hin : d !! k = Some l).
  { apply elem_of_iteritems. rewrite Hl. apply elem_of_app. right. left. }
  destruct (Hval k l Hin) as [o Ho].
  assert (Hname : opt_long_name o <> k).
  { intros E. apply Hk. rewrite Ho. cbn. now rewrite E. }
  pose proof (NoDup_fst_iteritems d) as ND. rewrite Hl in ND.
  rewrite fmap_app in ND. apply NoDup_app in ND as (ND1 & _ & _).
  exists (with_conf h (new_conf h) (list_to_map l1)).
  split.
  - unfold DefaultConfiguration__init__.
    erewrite bind_ok by reflexivity. fold (new_conf h).
    rewrite (bind_ok _ _ h (with_conf h (new_conf h) ∅) tt) by reflexivity.
    rewrite bool_decide_eq_false_2 by assumption.
    erewrite bind_raise; [reflexivity|].
    rewrite Hl, for_each_app.
    erewrite bind_ok; cycle 1.
    { apply init_loop with (d0 := ∅).
      - exact ND1.
      - intros n o' Hno. cbn.
        destruct (decide (opt_long_name <$> h_options h !! o' = Some n))
          as [E|E].
        + destruct (h_options h !! o') as [ob|]; [|discriminate].
          exists ob. split; [reflexivity|]. cbn in E. congruence.
        + exfalso. exact (Hl1 (n, o') Hno E).
      - intros n _. rewrite dom_empty. apply not_elem_of_empty.
      - apply with_conf_lookup. }
    rewrite with_conf_twice, (right_id_L ∅ (∪)).
    cbn [for_each]. erewrite bind_raise; [reflexivity|].
    erewrite bind_ok by (apply name_eq; exact Ho).
    assert (Eq : String.eqb k (opt_long_name o) = false).
    { apply String.eqb_neq. congruence. }
    rewrite Eq. reflexivity.
  - split; [reflexivity|].
    intros c Hc. cbn. apply lookup_insert_ne. intros <-.
    apply elem_of_dom in Hc as [x Hx]. rewrite new_conf_fresh in Hx.
    discriminate.
Qed.

Lemma DefaultConfiguration_asserts_names_witness :
  snd (DefaultConfiguration__init__ (order := demo_order)
         (Some {[ "o1" := 2%positive ]}) demo_heap)
  = Raise AssertionError.
Proof.
  destruct (DefaultConfiguration_asserts_names (order := demo_order)
              demo_heap {[ "o1" := 2%positive ]}) as (h1 & Hi & _).
  - intros k l Hkl. apply lookup_singleton_Some in Hkl as [_ <-].
    vm_compute. eexists. reflexivity.
  - apply (bool_decide_unpack _). vm_compute. reflexivity.
  - rewrite Hi. reflexivity.
Defined.

End configuration_constructor.

Section option_operations.
Import config.

(** The option [o] once it was given the value [v]. *)
Lemma set_ok_shape h l o v :
  h_options h !! l = Some o ->
  fst (_validate l v h) = h ->
  snd (_validate l v h) = Ok tt ->
  set l v h
  = ({| h_options :=
          <[l := {| opt_class := opt_class o;
                    opt_long_name := opt_long_name o;
                    opt_short_name := opt_short_name o;
                    opt_set := true;
                    opt_value := Some v |}]> (h_options h);
        h_configurations := h_configurations h |}, Ok l).
Proof.
  intros El Hf Hs. unfold set. unfold bind at 1.
  destruct (_validate l v h) as [h1 r]. cbn in Hf, Hs. subst h1 r.
  unfold bind, deref_option. rewrite El. reflexivity.
Qed.

Lemma set_store l v h :
  fst (set l v h) = h \/
  exists o, h_options h !! l = Some o /\
    fst (set l v h)
    = {| h_options :=
           <[l := {| opt_class := opt_class o;
                     opt_long_name := opt_long_name o;
                     opt_short_name := opt_short_name o;
                     opt_set := true;
                     opt_value := Some v |}]> (h_options h);
         h_configurations := h_configurations h |}.
Proof.
  destruct (set l v h) as [h' [l'|e]] eqn:E.
  - right. revert E. unfold set. unfold bind at 1.
    pose proof (validate_keeps_store l v h) as Hv.
    destruct (_validate l v h) as [h1 [[]|e]]; [|discriminate].
    cbn in Hv. subst h1. unfold bind, deref_option.
    destruct (h_options h !! l) as [o|]; [|discriminate].
    cbn. intros [= <- _]. exists o. split; reflexivity.
  - left. cbn. eapply set_raise_keeps_store. exact E.
Qed.

Lemma parse_store l s h :
  fst (parse l s h) = h \/ exists v, fst (parse l s h) = fst (set l v h).
Proof.
  unfold parse.
  pose proof (parse_keeps_store l s h) as Hp.
  destruct (_parse l s h) as [h1 [v|e]] eqn:E; cbn in Hp; subst h1.
  - right. exists v. rewrite (bind_ok _ _ _ _ _ E). unfold bind.
    destruct (set l v h) as [h' [l'|e]]; reflexivity.
  - left. now rewrite (bind_raise _ _ _ _ _ E).
Qed.

Lemma set_keeps_attributes l v h l' :
  opt_long_name <$> h_options (fst (set l v h)) !! l'
  = opt_long_name <$> h_options h !! l' /\
  opt_short_name <$> h_options (fst (set l v h)) !! l'
  = opt_short_name <$> h_options h !! l' /\
  opt_class <$> h_options (fst (set l v h)) !! l'
  = opt_class <$> h_options h !! l' /\
  h_configurations (fst (set l v h)) = h_configurations h.
Proof.
  destruct (set_store l v h) as [->|(o & El & ->)]; [auto|].
  cbn. destruct (decide (l = l')) as [<-|Hne].
  - rewrite lookup_insert_eq, El. auto.
  - rewrite lookup_insert_ne by assumption. auto.
Qed.

Lemma name_by_lookup l h :
  snd (name l h)
  = match opt_long_name <$> h_options h !! l with
    | Some n => Ok n
    | None => Raise (SystemError "dangling option reference")
    end.
Proof.
  unfold name, bind, deref_option. destruct (h_options h !! l); reflexivity.
Qed.

Lemma short_name_by_lookup l h :
  snd (short_name l h)
  = match opt_short_name <$> h_options h !! l with
    | Some n => Ok n
    | None => Raise (SystemError "dangling option reference")
    end.
Proof.
  unfold short_name, bind, deref_option.
  destruct (h_options h !! l); reflexivity.
Qed.

(** X6: neither [set] nor [parse], whether it returns or raises,
    changes the name or the short name of any option or what any
    configuration holds; so a configuration whose keys are the names
    of its options stays one. *)
Theorem set_and_parse_keep_names l v h :
  (forall l',
     snd (name l' (fst (set l v h))) = snd (name l' h) /\
     snd (short_name l' (fst (set l v h))) = snd (short_name l' h) /\
     snd (name l' (fst (parse l v h))) = snd (name l' h) /\
     snd (short_name l' (fst (parse l v h))) = snd (short_name l' h)) /\
  h_configurations (fst (set l v h)) = h_configurations h /\
  h_configurations (fst (parse l v h)) = h_configurations h /\
  (forall d, names_agree h d ->
     names_agree (fst (set l v h)) d /\ names_agree (fst (parse l v h)) d).
Proof.
  assert (Hp : forall l',
    opt_long_name <$> h_options (fst (parse l v h)) !! l'
    = opt_long_name <$> h_options h !! l' /\
    opt_short_name <$> h_options (fst (parse l v h)) !! l'
    = opt_short_name <$> h_options h !! l' /\
    h_configurations (fst (parse l v h)) = h_configurations h).
  { intros l'. destruct (parse_store l v h) as [->|[v' ->]]; [auto|].
    destruct (set_keeps_attributes l v' h l') as (? & ? & _ & ?). auto. }
  split; [|split; [|split]].
  - intros l'. rewrite !name_by_lookup, !short_name_by_lookup.
    destruct (set_keeps_attributes l v h l') as (-> & -> & _ & _).
    destruct (Hp l') as (-> & -> & _). auto.
  - apply set_keeps_attributes. exact l.
  - apply (Hp l).
  - intros d Hd. split; intros n o Hno; cbn.
    + destruct (set_keeps_attributes l v h o) as (-> & _). now apply Hd.
    + destruct (Hp o) as (-> & _). now apply Hd.
Qed.

Lemma set_and_parse_keep_names_witness :
  names_agree (fst (set 2%positive (PyStr "v") demo_heap))
    {[ "o1" := 1%positive; "o2" := 2%positive ]}.
Proof.
  refine (proj1 (proj2 (proj2 (proj2
            (set_and_parse_keep_names 2%positive (PyStr "v") demo_heap)))
            {[ "o1" := 1%positive; "o2" := 2%positive ]} _)).
  apply (bool_decide_unpack _). vm_compute. reflexivity.
Defined.

(** X7: [set] on an option.  A StringOption takes a str or a unicode
    value and refuses every other value with BadOptionValueType.  An
    IntOption takes an int or a bool (bool is a subclass of int); it
    refuses a long, None, a unicode and a byte string of ASCII
    characters with BadOptionValueType; for a byte string with a byte
    that is not ASCII, building the message of that exception raises
    UnicodeDecodeError instead.  On an instance of the base class
    every [set] raises NameError, since the exception its [_validate]
    names is bound nowhere. *)
Theorem set_checks_the_type h l o v :
  h_options h !! l = Some o ->
  snd (set l v h)
  = match opt_class o, v with
    | AbstractOption, _ => Raise (NameError "NotIMplementedError")
    | StringOption, PyStr _ | StringOption, PyUnicode _ => Ok l
    | StringOption, _ => Raise BadOptionValueType
    | IntOption, PyInt _ | IntOption, PyBool _ => Ok l
    | IntOption, PyStr s =>
        if is_ascii s then Raise BadOptionValueType
        else Raise UnicodeDecodeError
    | IntOption, _ => Raise BadOptionValueType
    end.
Proof.
  intros El. unfold set. unfold bind at 1. unfold _validate.
  unfold bind at 1. unfold deref_option at 1. rewrite El.
  destruct (opt_class o) eqn:Ec.
  - reflexivity.
  - rewrite (assertString_eq h l o v El).
    destruct v; cbn; unfold bind, deref_option; rewrite ?El; reflexivity.
  - rewrite (assertType_eq h l o v El).
    destruct v; cbn; unfold bind, deref_option; rewrite ?El;
      try reflexivity.
    destruct (is_ascii s); reflexivity.
Qed.

Lemma set_checks_the_type_witness :
  let h := fst (new_option IntOption "n" [] [] empty_heap) in
  snd (set 1%positive (PyStr (String (ascii_of_nat 233) EmptyString)) h)
  = Raise UnicodeDecodeError /\
  snd (set 1%positive (PyStr "five") h) = Raise BadOptionValueType /\
  snd (set 1%positive (PyInt 5) demo_heap) = Raise BadOptionValueType.
Proof.
  intros h.
  pose (o := {| opt_class := IntOption; opt_long_name := "n";
                opt_short_name := PyNone; opt_set := false;
                opt_value := None |}).
  assert (El : h_options h !! 1%positive = Some o)
    by (vm_compute; reflexivity).
  split; [|split].
  - exact (set_checks_the_type h 1%positive o
             (PyStr (String (ascii_of_nat 233) EmptyString)) El).
  - exact (set_checks_the_type h 1%positive o (PyStr "five") El).
  - rewrite (set_checks_the_type demo_heap 1%positive
               (unset_option "o1" PyNone) (PyInt 5)).
    + reflexivity.
    + vm_compute. reflexivity.
Defined.



(** X9: on a StringOption, [parse] of a string sets that very string:
    afterwards [get] and [get_required] give it back, whatever the
    option held before; [parse] of a value that is no string raises
    BadOptionValueType and leaves the option as it was. *)
Theorem StringOption_parse_round_trip h l o v :
  h_options h !! l = Some o ->
  opt_class o = StringOption ->
  match v with
  | PyStr _ | PyUnicode _ =>
      exists h', parse l v h = (h', Ok l) /\
                 get l h' = (h', Ok v) /\
                 forall comment, get_required l comment h' = (h', Ok v)
  | _ => parse l v h = (h, Raise BadOptionValueType)
  end.
Proof.
  intros El Hc.
  assert (Hp : _parse l v h = (h, Ok v)).
  { unfold _parse, bind, deref_option. rewrite El, Hc. reflexivity. }
  assert (Hv : _validate l v h = _assertString l v h).
  { unfold _validate. unfold bind at 1. unfold deref_option at 1.
    now rewrite El, Hc. }
  rewrite (assertString_eq h l o v El) in Hv.
  assert (Hok : _validate l v h = (h, Ok tt) ->
    exists h', parse l v h = (h', Ok l) /\
               get l h' = (h', Ok v) /\
               forall comment, get_required l comment h' = (h', Ok v)).
  { intros Ha. unfold parse. rewrite (bind_ok _ _ _ _ _ Hp).
    rewrite (bind_ok _ _ _ _ _
               (set_ok_shape h l o v El
                  ltac:(rewrite Ha; reflexivity)
                  ltac:(rewrite Ha; reflexivity))).
    eexists. split; [reflexivity|].
    assert (Hg : forall h2 : heap,
      h_options h2 !! l
      = Some {| opt_class := opt_class o; opt_long_name := opt_long_name o;
                opt_short_name := opt_short_name o; opt_set := true;
                opt_value := Some v |} ->
      get l h2 = (h2, Ok v)).
    { intros h2 E2. unfold get, bind, deref_option. now rewrite E2. }
    split.
    - apply Hg. cbn. apply lookup_insert_eq.
    - intros comment. erewrite get_required_set.
      + apply Hg. cbn. apply lookup_insert_eq.
      + cbn. apply lookup_insert_eq.
      + reflexivity. }
  assert (Hbad : _validate l v h = (h, Raise BadOptionValueType) ->
    parse l v h = (h, Raise BadOptionValueType)).
  { intros Ha. unfold parse. rewrite (bind_ok _ _ _ _ _ Hp).
    unfold bind, set. unfold bind at 1. rewrite Ha. reflexivity. }
  destruct v; (apply Hok; exact Hv) || (apply Hbad; exact Hv).
Qed.

Lemma StringOption_parse_round_trip_witness :
  exists h', parse 1%positive (PyStr "test") demo_heap = (h', Ok 1%positive) /\
             get_required 1%positive PyNone h' = (h', Ok (PyStr "test")).
Proof.
  destruct (StringOption_parse_round_trip demo_heap 1%positive
              (unset_option "o1" PyNone) (PyStr "test"))
    as (h' & Hp & _ & Hr).
  - vm_compute. reflexivity.
  - reflexivity.
  - exists h'. split; [exact Hp|apply Hr].
Defined.

End option_operations.

Section merge_composition.
Import config.

Lemma names_agree_with_conf h c d' d :
  names_agree (with_conf h c d') d <-> names_agree h d.
Proof. reflexivity. Qed.

Lemma names_agree_union h d1 d2 :
  names_agree h d1 -> names_agree h d2 -> names_agree h (d1 ∪ d2).
Proof. intros H1 H2. now apply map_Forall_union_2. Qed.

Lemma with_conf_lookup_old h d c' :
  c' ∈ dom (h_configurations h) ->
  h_configurations (with_conf h (new_conf h) d) !! c'
  = h_configurations h !! c'.
Proof.
  intros Hc. cbn. apply lookup_insert_ne. intros <-.
  apply elem_of_dom in Hc as [x Hx]. rewrite new_conf_fresh in Hx.
  discriminate.
Qed.

(** A merge that returns has allocated one configuration holding the
    entries of [other] over those of [self]. *)
Lemma merge_returns_shape {order : DictOrder}
    h self other d_self d_other ao h' r :
  h_configurations h !! self = Some d_self ->
  h_configurations h !! other = Some d_other ->
  names_agree h d_self -> names_agree h d_other ->
  merge self other ao h = (h', Ok r) ->
  h' = with_conf h (new_conf h) (d_other ∪ d_self) /\ r = new_conf h.
Proof.
  intros Es Eo Hs Ho Hm.
  destruct (decide (dom d_self ∩ dom d_other = ∅)) as [Hd|Hd].
  - apply disjoint_intersection_L in Hd.
    rewrite (merge_ok h self other d_self d_other ao Es Eo Hs Ho
               (or_intror Hd)) in Hm.
    injection Hm as <- <-. auto.
  - destruct ao.
    + rewrite (merge_ok h self other d_self d_other true Es Eo Hs Ho
                 (or_introl eq_refl)) in Hm.
      injection Hm as <- <-. auto.
    + destruct (merge_conflict h self other d_self d_other Es Eo Hs Ho)
        as (l1 & n & o & l2 & _ & _ & _ & Hc).
      { destruct (set_choose_L (dom d_self ∩ dom d_other) Hd) as [n Hn].
        exists n. now apply elem_of_intersection in Hn. }
      rewrite Hc in Hm. discriminate.
Qed.

(** X10: a merge that returns keeps the class invariant: the keys of
    the result are the names of its options, and both inputs are still
    there with the options they had, so the result can be merged
    again. *)
Theorem merge_result_is_well_formed {order : DictOrder}
    h self other d_self d_other ao h' r :
  h_configurations h !! self = Some d_self ->
  h_configurations h !! other = Some d_other ->
  names_agree h d_self -> names_agree h d_other ->
  merge self other ao h = (h', Ok r) ->
  exists d,
    options r h' = (h', Ok d) /\
    names_agree h' d /\
    options self h' = (h', Ok d_self) /\
    options other h' = (h', Ok d_other) /\
    names_agree h' d_self /\ names_agree h' d_other.
Proof.
  intros Es Eo Hs Ho Hm.
  destruct (merge_returns_shape _ _ _ _ _ _ _ _ Es Eo Hs Ho Hm) as [-> ->].
  exists (d_other ∪ d_self).
  assert (Hold : forall c d, h_configurations h !! c = Some d ->
    options c (with_conf h (new_conf h) (d_other ∪ d_self))
    = (with_conf h (new_conf h) (d_other ∪ d_self), Ok d)).
  { intros c d Ec. unfold options, deref_configuration.
    rewrite with_conf_lookup_old, Ec; [reflexivity|].
    apply elem_of_dom. now exists d. }
  split.
  { unfold options, deref_configuration. now rewrite with_conf_lookup. }
  split.
  { apply names_agree_with_conf, names_agree_union; assumption. }
  split; [now apply Hold|]. split; [now apply Hold|].
  split; apply names_agree_with_conf; assumption.
Qed.

Lemma merge_result_is_well_formed_witness :
  let m := merge (order := demo_order) 1%positive 2%positive true demo_heap in
  exists d,
    options (snd_ok m) (fst m) = (fst m, Ok d) /\ names_agree (fst m) d.
Proof.
  intros m.
  destruct (merge_result_is_well_formed (order := demo_order) demo_heap
              1%positive 2%positive
              {[ "o1" := 1%positive; "o2" := 2%positive ]}
              {[ "o2" := 3%positive ]} true (fst m) (snd_ok m))
    as (d & Ho & Hn & _).
  - vm_compute. reflexivity.
  - vm_compute. reflexivity.
  - apply (bool_decide_unpack _). vm_compute. reflexivity.
  - apply (bool_decide_unpack _). vm_compute. reflexivity.
  - vm_compute. reflexivity.
  - exists d. split; assumption.
Defined.

(** X11: merging with override is associative in what the result
    holds: merging [a] with [b] and the result with [c] gives a
    configuration with the same options as merging [a] with the merge
    of [b] and [c]: those of [c], over those of [b], over those of
    [a]. *)
Theorem merge_with_override_is_associative {order : DictOrder}
    h a b c da db dc :
  h_configurations h !! a = Some da ->
  h_configurations h !! b = Some db ->
  h_configurations h !! c = Some dc ->
  names_agree h da -> names_agree h db -> names_agree h dc ->
  exists h1 r1 h2 r2,
    (do ab <- merge a b true; merge ab c true) h = (h1, Ok r1) /\
    (do bc <- merge b c true; merge a bc true) h = (h2, Ok r2) /\
    options r1 h1 = (h1, Ok (dc ∪ (db ∪ da))) /\
    options r2 h2 = (h2, Ok (dc ∪ (db ∪ da))).
Proof.
  intros Ea Eb Ec Ha Hb Hc.
  assert (Hold : forall d x dx, h_configurations h !! x = Some dx ->
    h_configurations (with_conf h (new_conf h) d) !! x = Some dx).
  { intros d x dx Ex. rewrite with_conf_lookup_old; [assumption|].
    apply elem_of_dom. now exists dx. }
  pose proof (merge_ok h a b da db true Ea Eb Ha Hb (or_introl eq_refl))
    as Hab.
  pose proof (merge_ok h b c db dc true Eb Ec Hb Hc (or_introl eq_refl))
    as Hbc.
  pose proof (merge_ok (with_conf h (new_conf h) (db ∪ da)) (new_conf h) c
                (db ∪ da) dc true (with_conf_lookup _ _ _)
                (Hold _ _ _ Ec)
                (proj2 (names_agree_with_conf _ _ _ _)
                   (names_agree_union _ _ _ Hb Ha))
                (proj2 (names_agree_with_conf _ _ _ _) Hc)
                (or_introl eq_refl)) as Habc.
  pose proof (merge_ok (with_conf h (new_conf h) (dc ∪ db)) a (new_conf h)
                da (dc ∪ db) true (Hold _ _ _ Ea)
                (with_conf_lookup _ _ _)
                (proj2 (names_agree_with_conf _ _ _ _) Ha)
                (proj2 (names_agree_with_conf _ _ _ _)
                   (names_agree_union _ _ _ Hc Hb))
                (or_introl eq_refl)) as Ha_bc.
  eexists _, _, _, _.
  split; [rewrite (bind_ok _ _ _ _ _ Hab); exact Habc|].
  split; [rewrite (bind_ok _ _ _ _ _ Hbc); exact Ha_bc|].
  split.
  - unfold options, deref_configuration. now rewrite with_conf_lookup.
  - unfold options, deref_configuration. rewrite with_conf_lookup.
    now rewrite (assoc_L (∪)).
Qed.

Lemma merge_with_override_is_associative_witness :
  exists h1 r1,
    (do ab <- merge (order := demo_order) 3%positive 1%positive true;
     merge (order := demo_order) ab 2%positive true) demo_heap = (h1, Ok r1) /\
    options r1 h1
    = (h1, Ok ({[ "o2" := 3%positive ]}
               ∪ ({[ "o1" := 1%positive; "o2" := 2%positive ]}
                  ∪ {[ "o1" := 1%positive ]}))).
Proof.
  destruct (merge_with_override_is_associative (order := demo_order)
              demo_heap 3%positive 1%positive 2%positive
              {[ "o1" := 1%positive ]}
              {[ "o1" := 1%positive; "o2" := 2%positive ]}
              {[ "o2" := 3%positive ]})
    as (h1 & r1 & _ & _ & Hl & _ & Ho & _).
  - vm_compute. reflexivity.
  - vm_compute. reflexivity.
  - vm_compute. reflexivity.
  - apply (bool_decide_unpack _). vm_compute. reflexivity.
  - apply (bool_decide_unpack _). vm_compute. reflexivity.
  - apply (bool_decide_unpack _). vm_compute. reflexivity.
  - exists h1, r1. split; assumption.
Defined.

(** X12: merging with a configuration that has no options, on either
    side and with or without override, returns a new configuration
    with the options of the other one. *)
Theorem merge_with_empty_copies {order : DictOrder} h c e d ao :
  h_configurations h !! c = Some d ->
  h_configurations h !! e = Some ∅ ->
  names_agree h d ->
  exists h1 r1 h2 r2,
    merge c e ao h = (h1, Ok r1) /\ options r1 h1 = (h1, Ok d) /\
    merge e c ao h = (h2, Ok r2) /\ options r2 h2 = (h2, Ok d) /\
    r1 <> c /\ r2 <> c.
Proof.
  intros Ec Ee Hd.
  assert (Hfresh : new_conf h <> c).
  { intros E. pose proof (new_conf_fresh h) as F. rewrite E, Ec in F.
    discriminate. }
  exists (with_conf h (new_conf h) (∅ ∪ d)), (new_conf h),
         (with_conf h (new_conf h) (d ∪ ∅)), (new_conf h).
  split.
  { apply merge_ok; auto using names_agree_empty. right.
    rewrite dom_empty_L. apply disjoint_empty_r. }
  split.
  { unfold options, deref_configuration.
    now rewrite with_conf_lookup, (left_id_L ∅ (∪)). }
  split.
  { apply merge_ok; auto using names_agree_empty. right.
    rewrite dom_empty_L. apply disjoint_empty_l. }
  split; [|auto].
  unfold options, deref_configuration.
  now rewrite with_conf_lookup, (right_id_L ∅ (∪)).
Qed.

Lemma merge_with_empty_copies_witness :
  exists h1 r1,
    merge (order := demo_order) 1%positive 4%positive false
      (fst (DefaultConfiguration__init__ (order := demo_order) None
              demo_heap))
    = (h1, Ok r1) /\
    options r1 h1
    = (h1, Ok {[ "o1" := 1%positive; "o2" := 2%positive ]}).
Proof.
  destruct (merge_with_empty_copies (order := demo_order)
              (fst (DefaultConfiguration__init__ (order := demo_order) None
                      demo_heap))
              1%positive 4%positive
              {[ "o1" := 1%positive; "o2" := 2%positive ]} false)
    as (h1 & r1 & _ & _ & Hm & Ho & _).
  - vm_compute. reflexivity.
  - vm_compute. reflexivity.
  - apply (bool_decide_unpack _). vm_compute. reflexivity.
  - exists h1, r1. split; assumption.
Defined.

(** X13: merging a configuration with itself.  With override the
    result holds the same options; without override it raises
    ConflictingMergeError with the name the iteration over the options
    meets first, unless the configuration has no option at all. *)
Theorem merge_with_itself {order : DictOrder} h c d :
  h_configurations h !! c = Some d ->
  names_agree h d ->
  (exists h1 r1, merge c c true h = (h1, Ok r1) /\
                 options r1 h1 = (h1, Ok d) /\ r1 <> c) /\
  match iteritems d with
  | [] => exists h2 r2, merge c c false h = (h2, Ok r2) /\
                        options r2 h2 = (h2, Ok ∅)
  | (n, _) :: _ =>
      exists h2, merge c c false h = (h2, Raise (ConflictingMergeError n))
  end.
Proof.
  intros Ec Hd. split.
  - exists (with_conf h (new_conf h) (d ∪ d)), (new_conf h).
    split; [apply merge_ok; auto|]. split.
    + unfold options, deref_configuration.
      now rewrite with_conf_lookup, (idemp_L (∪)).
    + intros E. pose proof (new_conf_fresh h) as F. rewrite E, Ec in F.
      discriminate.
  - destruct (iteritems d) as [|[n o] rest] eqn:El.
    + apply iteritems_empty_iff in El. subst d.
      exists (with_conf h (new_conf h) (∅ ∪ ∅)), (new_conf h).
      split.
      * apply merge_ok; auto. right. rewrite dom_empty_L.
        apply disjoint_empty_l.
      * unfold options, deref_configuration.
        now rewrite with_conf_lookup, (left_id_L ∅ (∪)).
    + assert (Hn : n ∈ dom d).
      { apply elem_of_dom. exists o. apply elem_of_iteritems.
        rewrite El. left. }
      destruct (merge_conflict h c c d d Ec Ec Hd Hd)
        as (l1 & n' & o' & l2 & Hl & _ & Hl1 & Hm); [now exists n|].
      rewrite El in Hl. destruct l1 as [|[n1 o1] l1].
      * injection Hl as <- <- <-. eexists. exact Hm.
      * exfalso. injection Hl as <- <- _. apply (Hl1 n); [left|exact Hn].
Qed.

Lemma merge_with_itself_witness :
  exists h2,
    merge (order := demo_order) 1%positive 1%positive false demo_heap
    = (h2, Raise (ConflictingMergeError "o2")).
Proof.
  destruct (merge_with_itself (order := demo_order) demo_heap 1%positive
              {[ "o1" := 1%positive; "o2" := 2%positive ]})
    as (_ & Hm).
  - vm_compute. reflexivity.
  - apply (bool_decide_unpack _). vm_compute. reflexivity.
  - exact Hm.
Defined.

End merge_composition.

(** ** More about the in-memory file system *)
Section memory_file_system_lookup.
Import filesystem.

Lemma raise_OSError_is_NameError {S A} (code : string) (s : S) :
  @raise_OSError S A code s = (s, Raise (NameError "errno")).
Proof. reflexivity. Qed.

Lemma rec_resolves {S} : forall (comps here : list string) (cur : node) (s : S),
  rec here cur comps s
  = (s, if resolves cur comps
        then match comps with
             | [] => Ok (LNode here cur)
             | _ => Ok LNone
             end
        else Raise (NameError "errno")).
Proof.
  induction comps as [|c comps IH]; intros here cur s; [reflexivity|].
  cbn [rec resolves].
  destruct cur as [es| |]; try apply raise_OSError_is_NameError.
  destruct (entry c es) as [child|]; [|apply raise_OSError_is_NameError].
  unfold bind. rewrite IH.
  destruct (resolves child comps); [|reflexivity].
  destruct comps; reflexivity.
Qed.

(** X14: [__lookup] never hands back the node it was asked for.  It
    returns None when the path, cut at its slashes, leads to a node of
    the tree; when a component is missing or is looked up in something
    that is no directory it raises NameError for the name errno, the
    same in both cases, and never OSError. *)
Theorem lookup_returns_None_or_raises_NameError {OS} (path : string)
    (w : memory_world OS) :
  __lookup path w
  = (w, if resolves (mw_tree w) (split_slash path)
        then Ok LNone
        else Raise (NameError "errno")).
Proof.
  unfold __lookup. rewrite (bind_ok _ _ w w w) by reflexivity.
  rewrite rec_resolves. destruct (split_slash path) eqn:E; [|reflexivity].
  now apply split_slash_nonempty in E.
Qed.

End memory_file_system_lookup.

Section memory_file_system_inert.
Import filesystem.
Context {OS : Type} `{OperatingSystem OS}.

Lemma memory_fs_call (op : fs_op) (w : memory_world OS) :
  fs_call op w = (w, match op with FsExists _ => true | _ => false end).
Proof.
  destruct op; try reflexivity.
  cbn [fs_call mkdir MemoryFileSystem].
  destruct (mkdir_always_raises path w) as [E|[E|E]]; rewrite E; reflexivity.
Qed.

(** X15: a MemoryFileSystem never changes.  Of its methods only
    [exists] returns; [mkdir], [rmdir], [unlink], [symlink], [rmtree],
    [mkdtemp] and [tempdir] raise whatever they are given; and after
    any sequence of calls the tree and the operating system are what
    they were. *)
Theorem MemoryFileSystem_never_changes (ops : list fs_op)
    (w : memory_world OS) :
  fs_run ops w = w /\
  forall op,
    fs_call op w = (w, match op with FsExists _ => true | _ => false end).
Proof.
  split; [|intros op; apply memory_fs_call].
  unfold fs_run. induction ops as [|op ops IH]; [reflexivity|].
  cbn [foldl]. rewrite memory_fs_call. exact IH.
Qed.

End memory_file_system_inert.

Section split_slash_agnostically_facts.
Import filesystem.

Lemma list_ascii_app (s1 s2 : string) :
  list_ascii_of_string (s1 ++ s2)%string
  = list_ascii_of_string s1 ++ list_ascii_of_string s2.
Proof.
  induction s1 as [|c s1 IH]; [reflexivity|].
  change (c :: list_ascii_of_string (s1 ++ s2)%string
          = c :: (list_ascii_of_string s1 ++ list_ascii_of_string s2)).
  now f_equal.
Qed.

Lemma append_empty_r (s : string) : (s ++ "")%string = s.
Proof.
  induction s as [|c s IH]; [reflexivity|].
  change (String c (s ++ "")%string = String c s). now f_equal.
Qed.

Lemma slashes_all (n : nat) :
  Forall (fun c => c = "/"%char) (list_ascii_of_string (slashes n)).
Proof. induction n; cbn; constructor; auto. Qed.

Lemma drop_slashes_app (l l' : list ascii) :
  Forall (fun c => c = "/"%char) l ->
  drop_slashes (l ++ l') = drop_slashes l'.
Proof.
  induction 1 as [|c l -> _ IH]; [reflexivity|]. cbn. exact IH.
Qed.

Lemma last_char_rev (p : string) (c : ascii) :
  last_char p = Some c ->
  exists l', rev (list_ascii_of_string p) = c :: l'.
Proof.
  induction p as [|a p IH]; [discriminate|].
  destruct p as [|b p].
  - cbn. intros [= ->]. now exists [].
  - intros Hl. destruct (IH Hl) as [l' El].
    change (list_ascii_of_string (String a (String b p)))
      with (a :: list_ascii_of_string (String b p)).
    cbn [rev]. rewrite El. now exists (l' ++ [a]).
Qed.

Lemma rfind_split_tail (r acc : list ascii) :
  exists pre, snd (rfind_split r acc) = pre ++ acc.
Proof.
  revert acc. induction r as [|c r IH]; intros acc.
  - now exists [].
  - cbn. destruct (Ascii.eqb c "/").
    + now exists [].
    + destruct (IH (c :: acc)) as [pre E]. exists (pre ++ [c]).
      rewrite E, <- app_assoc. reflexivity.
Qed.

Lemma nonempty_of_list (l : list ascii) :
  l <> [] -> nonempty (string_of_list_ascii l) = true.
Proof. destruct l; [contradiction|reflexivity]. Qed.

Lemma rfind_split_slash (t r : list ascii) :
  rfind_split (("/"%char :: t) ++ r) [] = (rev (("/"%char :: t) ++ r), []).
Proof. reflexivity. Qed.

(** [os.path.split] of a path that ends in slashes, after something
    that does not: the head is the path without them, the tail is
    empty. *)
Lemma os_path_split_trailing (p : string) (c : ascii) (n : nat) :
  last_char p = Some c -> c <> "/"%char ->
  os_path_split (p ++ slashes (S n)) = (p, "").
Proof.
  intros Hl Hc. unfold os_path_split.
  rewrite list_ascii_app, rev_app_distr.
  destruct (last_char_rev p c Hl) as [l' El].
  pose proof (slashes_all (S n)) as Hall.
  apply Forall_rev in Hall.
  assert (Hcons : exists t, rev (list_ascii_of_string (slashes (S n)))
                            = "/"%char :: t).
  { destruct (rev (list_ascii_of_string (slashes (S n)))) as [|a t] eqn:E.
    - apply (f_equal (@length ascii)) in E. rewrite length_rev in E.
      discriminate E.
    - inversion Hall; subst. now exists t. }
  destruct Hcons as [t Et].
  assert (Hsplit : rfind_split
            (rev (list_ascii_of_string (slashes (S n)))
               ++ rev (list_ascii_of_string p)) []
          = (list_ascii_of_string p ++ list_ascii_of_string (slashes (S n)),
             [])).
  { rewrite Et, rfind_split_slash, <- Et, <- rev_app_distr, rev_involutive.
    reflexivity. }
  rewrite Hsplit.
  rewrite rev_app_distr, (drop_slashes_app _ _ Hall), El.
  cbn [drop_slashes]. apply Ascii.eqb_neq in Hc. rewrite Hc.
  rewrite <- El, rev_involutive, string_of_list_ascii_of_string.
  reflexivity.
Qed.

Lemma os_path_split_file (p : string) (c : ascii) :
  last_char p = Some c -> c <> "/"%char ->
  nonempty (snd (os_path_split p)) = true.
Proof.
  intros Hl Hc. unfold os_path_split.
  destruct (last_char_rev p c Hl) as [l' El]. rewrite El.
  cbn [rfind_split]. apply Ascii.eqb_neq in Hc. rewrite Hc.
  destruct (rfind_split_tail l' [c]) as [pre E].
  destruct (rfind_split l' [c]) as [head tail]. cbn in E. subst tail.
  cbn. apply nonempty_of_list. now destruct pre.
Qed.

(** X16: [__split_slash_agnostically] does not look at slashes at the
    end of a path: for a path whose last character is not a slash,
    any number of slashes added at its end gives the same pair, or the
    same AssertionError. *)
Theorem split_slash_agnostically_drops_trailing_slashes {S}
    (p : string) (c : ascii) (n : nat) (s : S) :
  last_char p = Some c -> c <> "/"%char ->
  __split_slash_agnostically (p ++ slashes n) s
  = __split_slash_agnostically p s.
Proof.
  intros Hl Hc. destruct n as [|n].
  { cbn [slashes]. now rewrite append_empty_r. }
  unfold __split_slash_agnostically.
  rewrite (os_path_split_trailing p c n Hl Hc). cbn [nonempty negb].
  pose proof (os_path_split_file p c Hl Hc) as Hf.
  destruct (os_path_split p) as [d0 f0]. cbn in Hf. rewrite Hf.
  cbn [negb]. rewrite ?Hf. reflexivity.
Qed.

Lemma split_slash_agnostically_drops_trailing_slashes_witness :
  @__split_slash_agnostically unit "tmp/foo//" tt = (tt, Ok ("tmp", "foo")).
Proof.
  change "tmp/foo//" with ("tmp/foo" ++ slashes 2)%string.
  rewrite (split_slash_agnostically_drops_trailing_slashes
             "tmp/foo" "o"%char 2 tt).
  - reflexivity.
  - reflexivity.
  - discriminate.
Defined.

Lemma rfind_split_no_slash (r acc : list ascii) :
  Forall (fun c => c <> "/"%char) acc ->
  Forall (fun c => c <> "/"%char) (snd (rfind_split r acc)).
Proof.
  revert acc. induction r as [|c r IH]; intros acc Hacc; [exact Hacc|].
  cbn. destruct (Ascii.eqb c "/") eqn:E; [exact Hacc|].
  apply IH. constructor; [now apply Ascii.eqb_neq|exact Hacc].
Qed.

Lemma has_slash_of_list (l : list ascii) :
  Forall (fun c => c <> "/"%char) l ->
  has_slash (string_of_list_ascii l) = false.
Proof.
  induction 1 as [|c l Hc _ IH]; [reflexivity|].
  cbn. apply Ascii.eqb_neq in Hc. now rewrite Hc, IH.
Qed.

Lemma list_of_no_slash (p : string) :
  has_slash p = false ->
  Forall (fun c => c <> "/"%char) (list_ascii_of_string p).
Proof.
  induction p as [|c p IH]; cbn; [constructor|].
  intros [Hc Hp]%orb_false_iff. constructor; [|auto].
  now apply Ascii.eqb_neq.
Qed.

Lemma os_path_split_tail_no_slash (p : string) :
  has_slash (snd (os_path_split p)) = false.
Proof.
  unfold os_path_split.
  pose proof (rfind_split_no_slash (rev (list_ascii_of_string p)) []
                (List.Forall_nil _)) as Hf.
  destruct (rfind_split (rev (list_ascii_of_string p)) []) as [head tail].
  cbn in *. now apply has_slash_of_list.
Qed.

Lemma rfind_split_without_slash (r acc : list ascii) :
  Forall (fun c => c <> "/"%char) r ->
  rfind_split r acc = ([], rev r ++ acc).
Proof.
  intros Hr. revert acc. induction Hr as [|c r Hc _ IH]; intros acc.
  - reflexivity.
  - cbn. apply Ascii.eqb_neq in Hc. rewrite Hc, IH, <- app_assoc.
    reflexivity.
Qed.

Lemma os_path_split_without_slash (p : string) :
  has_slash p = false -> os_path_split p = ("", p).
Proof.
  intros Hp. unfold os_path_split.
  rewrite rfind_split_without_slash
    by (apply Forall_rev, list_of_no_slash, Hp).
  cbn. rewrite rev_involutive, app_nil_r, string_of_list_ascii_of_string.
  reflexivity.
Qed.

(** X17: what [__split_slash_agnostically] gives and refuses.  When it
    returns a pair, neither part is empty and the second has no slash
    in it.  A path with no slash in it, the empty one too, has no
    directory part and raises AssertionError, and so does [mkdir] of
    it on a MemoryFileSystem. *)
Theorem split_slash_agnostically_parts {S} (path : string) (s : S) :
  (forall s' d f,
     __split_slash_agnostically path s = (s', Ok (d, f)) ->
     s' = s /\ nonempty d = true /\ nonempty f = true /\
     has_slash f = false) /\
  (has_slash path = false ->
   __split_slash_agnostically path s = (s, Raise AssertionError) /\
   forall OS (w : memory_world OS),
     MemoryFileSystem_mkdir path w = (w, Raise AssertionError)).
Proof.
  split.
  - intros s' d f. unfold __split_slash_agnostically.
    pose proof (os_path_split_tail_no_slash path) as H1.
    destruct (os_path_split path) as [d0 f0]. cbn in H1.
    pose proof (os_path_split_tail_no_slash d0) as H2.
    assert (Hf : forall dd ff,
      (if negb (nonempty f0) then os_path_split d0 else (d0, f0)) = (dd, ff)
      -> has_slash ff = false).
    { intros dd ff. destruct (negb (nonempty f0)).
      - intros E. rewrite E in H2. exact H2.
      - intros [= _ <-]. exact H1. }
    destruct (if negb (nonempty f0) then os_path_split d0 else (d0, f0))
      as [dd ff].
    specialize (Hf dd ff eq_refl).
    destruct (nonempty dd) eqn:Ed, (nonempty ff) eqn:Ef; cbn;
      try discriminate.
    intros [= <- <- <-]. auto.
  - intros Hp.
    assert (E : forall S' (s0 : S'),
      __split_slash_agnostically path s0 = (s0, Raise AssertionError)).
    { intros S' s0. unfold __split_slash_agnostically.
      rewrite (os_path_split_without_slash path Hp).
      destruct path as [|a path]; reflexivity. }
    split; [apply E|].
    intros OS w. unfold MemoryFileSystem_mkdir.
    now rewrite (bind_raise _ _ _ _ _ (E _ w)).
Qed.

Lemma split_slash_agnostically_parts_witness :
  @__split_slash_agnostically unit "tmp" tt = (tt, Raise AssertionError) /\
  nonempty "foo" = true.
Proof.
  destruct (split_slash_agnostically_parts "tmp" tt) as [_ Hbad].
  destruct (split_slash_agnostically_parts "tmp/foo" tt) as [Hok _].
  split.
  - apply Hbad. reflexivity.
  - apply (Hok tt "tmp" "foo"). reflexivity.
Defined.

End split_slash_agnostically_facts.

(** ** More about temporary directories *)
Section local_tempdir.
Import filesystem.
Context {OS : Type} `{OperatingSystem OS}.

(** X18: on a LocalFileSystem, [mkdtemp] hands its suffix to
    [tempfile.mkdtemp] (the empty string for None), and [tempdir] does
    not: whatever suffix it is given it asks for a directory without
    one.  It returns a handle that is not stale on the path that was
    allocated, or raises what [tempfile.mkdtemp] raised; closing that
    handle calls [shutil.rmtree] on that path. *)
Theorem LocalFileSystem_tempdir_drops_the_suffix (self : loc)
    (suffix : option string) (os : OS) :
  mkdtemp suffix os = tempfile_mkdtemp (default "" suffix) os /\
  tempdir self suffix os = tempdir self None os /\
  match tempfile_mkdtemp "" os with
  | (os', Ok p) =>
      tempdir self suffix os
      = (os', Ok {| td_fs := self; td_path := p; td_stale := false |}) /\
      close ({| td_fs := self; td_path := p; td_stale := false |}, os')
      = (({| td_fs := self; td_path := p; td_stale := true |},
          fst (shutil_rmtree p os')),
         snd (shutil_rmtree p os'))
  | (os', Raise e) => tempdir self suffix os = (os', Raise e)
  end.
Proof.
  split; [destruct suffix; reflexivity|]. split; [reflexivity|].
  cbn [tempdir LocalFileSystem]. unfold FileSystem_tempdir, bind.
  unfold LocalFileSystem_mkdtemp.
  destruct (tempfile_mkdtemp "" os) as [os' [p|e]]; [|reflexivity].
  split; [reflexivity|].
  unfold close. cbn [td_stale negb td_path td_fs rmtree LocalFileSystem].
  destruct (shutil_rmtree p os'). reflexivity.
Qed.

End local_tempdir.

Section with_block.
Import filesystem.
Context {W : Type} `{FileSystem W}.

(** X19: what a [with] block over a handle gives.  If the body left
    the handle stale, nothing more is done and the outcome of the body
    is the outcome of the block.  Otherwise [rmtree] is called on the
    path; when it returns, the outcome of the body, a value or an
    exception, is the outcome of the block; when it raises, its
    exception is the outcome of the block, in place of whatever the
    body gave. *)
Theorem with_block_outcome {A} (body : Py (handle W) A) (s : handle W) :
  match body s with
  | (s2, r) =>
      if td_stale (fst s2) then with_ body s = (s2, r)
      else
        match rmtree (td_path (fst s2)) (snd s2) with
        | (w3, Ok _) =>
            with_ body s
            = (({| td_fs := td_fs (fst s2); td_path := td_path (fst s2);
                   td_stale := true |}, w3), r)
        | (w3, Raise e) =>
            with_ body s
            = (({| td_fs := td_fs (fst s2); td_path := td_path (fst s2);
                   td_stale := true |}, w3), Raise e)
        end
  end.
Proof.
  unfold with_, __enter__, __exit__, ret.
  destruct (body s) as [[self2 w2] r]. cbn [fst snd].
  unfold close. destruct (td_stale self2); cbn [negb]; [reflexivity|].
  destruct (rmtree (td_path self2) w2) as [w3 [[]|e]]; reflexivity.
Qed.

End with_block.

(** ** The registry of commands *)
Section command_registry.
Import commands.
Context {O : Type} (GlobalOptions : unit -> O).

(** X20: the registry lists persist, materialize, verify and
    garbage-collect, in this order and each once, and [has_command]
    is true of these four names and of no other string: not of the
    name of the function garbage_collect, which has an underscore
    where the command has a hyphen. *)
Theorem has_command_knows_the_four_names (n : string) :
  map name (all_commands GlobalOptions)
  = ["persist"; "materialize"; "verify"; "garbage-collect"] /\
  NoDup (map name (all_commands GlobalOptions)) /\
  has_command GlobalOptions n
  = bool_decide (n ∈ map name (all_commands GlobalOptions)) /\
  has_command GlobalOptions "garbage_collect" = false.
Proof.
  split; [reflexivity|]. split.
  { apply (bool_decide_unpack _). vm_compute. reflexivity. }
  split; [|reflexivity].
  unfold has_command, all_commands, _all_commands.
  cbn [List.filter map name].
  destruct (String.eqb_spec "persist" n) as [<-|H1]; [reflexivity|].
  destruct (String.eqb_spec "materialize" n) as [<-|H2]; [reflexivity|].
  destruct (String.eqb_spec "verify" n) as [<-|H3]; [reflexivity|].
  destruct (String.eqb_spec "garbage-collect" n) as [<-|H4]; [reflexivity|].
  symmetry. apply bool_decide_eq_false_2. intros Hin.
  repeat (apply elem_of_cons in Hin as [->|Hin]; [congruence|]).
  inversion Hin.
Qed.

End command_registry.
